(** * NetView: session store, server-side fetch interceptor, streaming
    endpoint and client aggregator.

    Shallow embedding of
      - the server package's types and session store
        (src/unnamed/part_001: [SessionStore], [getStore], [initStore]),
      - packages/server/src/interceptor.ts (the wrapped [fetch]),
      - the server package's streaming route (src/unnamed/part_002: [GET]),
      - src/shared/types.ts and src/content/index.tsx (the consumer of the
        stream, [connectServerStream]),
    followed by the properties of the specification that concern them.

    Conventions of the embedding.
      - JavaScript numbers that hold integers (clock readings, sizes,
        status codes, configuration values) are [Z].
      - [Date.now()] is an input: every operation that reads the clock takes
        the value read as an argument.
      - A listener function is identified by a natural number (the identity
        of the function object).  Calling a listener is recorded as an output
        of the operation, a list of [(listener, record)] pairs in the order
        of the calls; listeners are observers, they neither throw nor call
        back into the store.
      - [SessionBuffer] objects live in a heap indexed by references, the
        [Map] of the store holds references: the closure returned by
        [subscribe] keeps the buffer object it was created for, whatever
        happens to the map afterwards.
      - A promise is given by how it settles; an exception by the value
        thrown.  [netviewFetch] and [Page.pageFetch] describe the calls in
        which every awaited promise settles; [netviewFetchAsync] and
        [Page.pageFetchAsync] add the calls in which the promise of the
        primitive, or the reading of the response body, never settles. *)

From stdpp Require Import gmap strings list fin_maps pretty.
From Stdlib Require Import ZArith Lia.

Module Server.

(** ** types.ts *)

Record NetViewOptions := mkOptions {
  opt_maxLogsPerSession : option Z;
  opt_ttlSeconds : option Z;
  opt_debug : option bool
}.

Record ServerFetchLog := mkLog {
  id : string;
  sessionId : string;
  timestamp : Z;
  method : string;
  url : string;
  requestHeaders : gmap string string;
  requestBody : option string;
  status : Z;
  statusText : string;
  responseHeaders : gmap string string;
  responseBody : option string;
  duration : Z;
  error : option string
}.

(** Identity of a listener function object. *)
Abbreviation Callback := nat (only parsing).

(** Reference to a [SessionBuffer] object. *)
Abbreviation Ref := nat (only parsing).

(** [subscribers] is a JavaScript [Set]: no duplicates, iteration in
    insertion order. *)
Record SessionBuffer := mkBuffer {
  logs : list ServerFetchLog;
  lastAccess : Z;
  subscribers : list Callback
}.

(** One call [subscriber(log)]. *)
Abbreviation Call := (nat * ServerFetchLog)%type (only parsing).

(** ** store.ts *)

Definition DEFAULT_MAX_LOGS : Z := 100.
Definition DEFAULT_TTL_SECONDS : Z := 60.

Record SessionStore := mkStore {
  heap : gmap nat SessionBuffer;
  sessions : gmap string nat;
  maxLogsPerSession : Z;
  ttlMs : Z;
  cleanupInterval : bool
}.

(** [Set.prototype.add]: an element already present keeps its place. *)
Definition set_add (cb : nat) (s : list nat) : list nat :=
  if decide (cb ∈ s) then s else s ++ [cb].

(** [Set.prototype.delete]. *)
Definition set_delete (cb : nat) (s : list nat) : list nat :=
  filter (λ c, c ≠ cb) s.

(** [new SessionStore(options)]; [startCleanup] arms the interval timer. *)
Definition new_SessionStore (options : NetViewOptions) : SessionStore :=
  {| heap := ∅;
     sessions := ∅;
     maxLogsPerSession := default DEFAULT_MAX_LOGS (opt_maxLogsPerSession options);
     ttlMs := (default DEFAULT_TTL_SECONDS (opt_ttlSeconds options) * 1000)%Z;
     cleanupInterval := true |}.

(** The test of the sweep, [now - buffer.lastAccess > this.ttlMs]. *)
Definition expired (now ttl : Z) (b : SessionBuffer) : bool :=
  bool_decide (now - lastAccess b > ttl)%Z.

(** One run of the interval callback of [startCleanup], at clock reading
    [now]: the loop over the entries of the map deletes every expired one. *)
Definition cleanup (now : Z) (st : SessionStore) : SessionStore :=
  {| heap := heap st;
     sessions :=
       map_fold
         (λ sid r acc,
            match heap st !! r with
            | Some b => if expired now (ttlMs st) b then delete sid acc else acc
            | None => acc
            end)
         (sessions st) (sessions st);
     maxLogsPerSession := maxLogsPerSession st;
     ttlMs := ttlMs st;
     cleanupInterval := cleanupInterval st |}.

Definition set_heap (h : gmap nat SessionBuffer) (st : SessionStore) : SessionStore :=
  {| heap := h;
     sessions := sessions st;
     maxLogsPerSession := maxLogsPerSession st;
     ttlMs := ttlMs st;
     cleanupInterval := cleanupInterval st |}.

Definition touch (now : Z) (b : SessionBuffer) : SessionBuffer :=
  {| logs := logs b; lastAccess := now; subscribers := subscribers b |}.

(** [getOrCreateSession]: the buffer is looked up, created and entered in
    the map when absent, and its [lastAccess] is set to the clock in both
    cases (on creation the field is written twice, the second write is the
    one that stays).  Returns the reference of the buffer. *)
Definition getOrCreateSession (now : Z) (sid : string) (st : SessionStore)
  : SessionStore * nat :=
  match sessions st !! sid with
  | Some r => (set_heap (alter (touch now) r (heap st)) st, r)
  | None =>
      let r := fresh (dom (heap st)) in
      ({| heap := <[r := {| logs := []; lastAccess := now; subscribers := [] |}]> (heap st);
          sessions := <[sid := r]> (sessions st);
          maxLogsPerSession := maxLogsPerSession st;
          ttlMs := ttlMs st;
          cleanupInterval := cleanupInterval st |}, r)
  end.

(** [if (buffer.logs.length >= max) buffer.logs.shift()]. *)
Definition evict (max : Z) (l : list ServerFetchLog) : list ServerFetchLog :=
  if bool_decide (Z.of_nat (length l) >= max)%Z then drop 1 l else l.

(** [for (const subscriber of buffer.subscribers) subscriber(log)]. *)
Definition notify (log : ServerFetchLog) (subs : list nat) : list (nat * ServerFetchLog) :=
  map (λ c, (c, log)) subs.

Definition addLog (now : Z) (sid : string) (log : ServerFetchLog) (st : SessionStore)
  : SessionStore * list (nat * ServerFetchLog) :=
  let '(st1, r) := getOrCreateSession now sid st in
  match heap st1 !! r with
  | Some b =>
      let b' := {| logs := evict (maxLogsPerSession st1) (logs b) ++ [log];
                   lastAccess := lastAccess b;
                   subscribers := subscribers b |} in
      (set_heap (<[r := b']> (heap st1)) st1, notify log (subscribers b))
  | None => (st1, [])
  end.

(** The closure returned by [subscribe]: the buffer object and the
    listener it captured. *)
Abbreviation Handle := (nat * nat)%type (only parsing).

(** [for (const log of buffer.logs) callback(log)]. *)
Definition replay (cb : nat) (l : list ServerFetchLog) : list (nat * ServerFetchLog) :=
  map (λ log, (cb, log)) l.

Definition subscribe (now : Z) (sid : string) (cb : nat) (st : SessionStore)
  : SessionStore * (nat * nat) * list (nat * ServerFetchLog) :=
  let '(st1, r) := getOrCreateSession now sid st in
  match heap st1 !! r with
  | Some b =>
      let b' := {| logs := logs b;
                   lastAccess := lastAccess b;
                   subscribers := set_add cb (subscribers b) |} in
      (set_heap (<[r := b']> (heap st1)) st1, (r, cb), replay cb (logs b))
  | None => (st1, (r, cb), [])
  end.

(** Calling the closure returned by [subscribe]:
    [buffer.subscribers.delete(callback)]. *)
Definition unsubscribe (h : nat * nat) (st : SessionStore) : SessionStore :=
  set_heap
    (alter (λ b, {| logs := logs b; lastAccess := lastAccess b;
                    subscribers := set_delete h.2 (subscribers b) |}) h.1 (heap st))
    st.

(** The buffer the map currently holds for a session. *)
Definition session (sid : string) (st : SessionStore) : option SessionBuffer :=
  sessions st !! sid ≫= λ r, heap st !! r.

(** [this.sessions.get(sessionId)?.logs ?? []]. *)
Definition getBufferedLogs (sid : string) (st : SessionStore) : list ServerFetchLog :=
  match session sid st with
  | Some b => logs b
  | None => []
  end.

Definition destroy (st : SessionStore) : SessionStore :=
  {| heap := heap st;
     sessions := ∅;
     maxLogsPerSession := maxLogsPerSession st;
     ttlMs := ttlMs st;
     cleanupInterval := false |}.

(** The module-level singleton [storeInstance]. *)
Definition getStore (storeInstance : option SessionStore) : string + SessionStore :=
  match storeInstance with
  | None => inl "NetView store not initialized. Call registerNetView() first."
  | Some s => inr s
  end.

(** [initStore]: a previous instance is destroyed and dropped, the new
    one replaces it.  Returns the new value of [storeInstance] and the
    store handed to the caller (the same object). *)
Definition initStore (options : NetViewOptions) (storeInstance : option SessionStore)
  : option SessionStore * SessionStore :=
  let _ := destroy <$> storeInstance in
  let s := new_SessionStore options in (Some s, s).

(** ** interceptor.ts *)

Definition COOKIE_NAME : string := "__netview_session".

(** What [await cookies()] gives: it throws outside a request context,
    otherwise the cookie store, here the value of each cookie by name. *)
Inductive Cookies :=
  | CookiesUnavailable
  | CookieStore (jar : gmap string string).

(** [getSessionId]: [cookieStore.get(COOKIE_NAME)?.value ?? null], and
    [null] when [cookies()] throws. *)
Definition getSessionId (c : Cookies) : option string :=
  match c with
  | CookiesUnavailable => None
  | CookieStore jar => jar !! COOKIE_NAME
  end.

(** The first argument of [fetch]: a string, a [URL] or a [Request]. *)
Inductive RequestInfo :=
  | InputString (s : string)
  | InputURL (href : string)
  | InputRequest (request_url : string).

(** The three shapes of [init.headers]; a [Headers] object is given by its
    entries in the order [forEach] visits them. *)
Inductive HeadersInit :=
  | HeadersObject (entries : list (string * string))
  | HeadersArray (pairs : list (string * string))
  | HeadersRecord (fields : gmap string string).

(** [init.body]: a string, a [FormData] (its entries), a [URLSearchParams]
    (the text its [toString()] returns) or any other body (Blob, buffer,
    stream). *)
Inductive BodyInit :=
  | BodyString (s : string)
  | BodyFormData (entries : list (string * string))
  | BodyURLSearchParams (text : string)
  | BodyOther.

Record RequestInit := mkInit {
  init_method : option string;
  init_headers : option HeadersInit;
  init_body : option BodyInit
}.

(** A response as the interceptor reads it; [resp_text] is [None] when
    [response.clone()] or [cloned.text()] throws.  A body whose reading
    never ends is the case [Unending] of [Fetched] below. *)
Record Response := mkResponse {
  resp_status : Z;
  resp_statusText : string;
  resp_headers : list (string * string);
  resp_text : option string
}.

(** A value thrown: an [Error] object with its message, or any other value
    with the text [String(value)] gives. *)
Inductive Thrown :=
  | ErrorObject (message : string)
  | OtherValue (text : string).

(** A settled promise of a response. *)
Inductive Settled :=
  | Resolved (response : Response)
  | Rejected (reason : Thrown).

(** [headers.forEach((value, key) => record[key] = value)], and the loop
    over a list of pairs: later writes of a name overwrite.  The record is
    a plain object, so an assignment to the name [__proto__] goes to the
    accessor of [Object.prototype], which ignores a string: no property is
    stored for that name. *)
Definition headersToRecord (headers : list (string * string)) : gmap string string :=
  foldl (λ record kv,
           if bool_decide (kv.1 = "__proto__") then record
           else <[kv.1 := kv.2]> record)
        ∅ headers.

(** [String.prototype.includes]. *)
Fixpoint includes (s pat : string) : bool :=
  String.prefix pat s ||
  match s with
  | EmptyString => false
  | String _ s' => includes s' pat
  end.

Definition url_of (input : RequestInfo) : string :=
  match input with
  | InputString s => s
  | InputURL href => href
  | InputRequest u => u
  end.

(** [init?.method ?? 'GET']. *)
Definition method_of (init : option RequestInit) : string :=
  default "GET" (init ≫= init_method).

Definition requestHeaders_of (init : option RequestInit) : gmap string string :=
  match init ≫= init_headers with
  | Some (HeadersObject entries) => headersToRecord entries
  | Some (HeadersArray pairs) => headersToRecord pairs
  | Some (HeadersRecord fields) => fields
  | None => ∅
  end.

(** The request body snapshot; [if (init?.body)] is a truthiness test, the
    empty string does not pass it. *)
Definition requestBody_of (init : option RequestInit) : option string :=
  match init ≫= init_body with
  | None => None
  | Some (BodyString s) => if bool_decide (s = "") then None else Some s
  | Some (BodyFormData _) => Some "[FormData]"
  | Some (BodyURLSearchParams text) => Some text
  | Some BodyOther => Some "[Binary Data]"
  end.

(** [error instanceof Error ? error.message : String(error)]. *)
Definition error_text (e : Thrown) : string :=
  match e with
  | ErrorObject message => message
  | OtherValue text => text
  end.

(** The wrapped [fetch].  [originalFetch] is the primitive it replaces,
    [cookies] what session resolution finds, [rid] the identifier
    [generateId()] draws, [startTime] and [endTime] the two clock readings
    of the interceptor and [now] the one [addLog] makes; [store] is the
    store the closure captured at registration. *)
Definition netviewFetch
    (originalFetch : RequestInfo → option RequestInit → Settled)
    (cookies : Cookies) (rid : string) (startTime endTime now : Z)
    (input : RequestInfo) (init : option RequestInit) (store : SessionStore)
  : Settled * SessionStore * list (nat * ServerFetchLog) :=
  match getSessionId cookies with
  | None => (originalFetch input init, store, [])
  | Some sid =>
      if bool_decide (sid = "") then (originalFetch input init, store, [])
      else if includes (url_of input) "/__netview/" then (originalFetch input init, store, [])
      else
        match originalFetch input init with
        | Resolved response =>
            let log :=
              {| id := rid;
                 sessionId := sid;
                 timestamp := startTime;
                 method := method_of init;
                 url := url_of input;
                 requestHeaders := requestHeaders_of init;
                 requestBody := requestBody_of init;
                 status := resp_status response;
                 statusText := resp_statusText response;
                 responseHeaders := headersToRecord (resp_headers response);
                 responseBody := Some (default "[Unable to read body]" (resp_text response));
                 duration := (endTime - startTime)%Z;
                 error := None |} in
            let '(store', calls) := addLog now sid log store in
            (Resolved response, store', calls)
        | Rejected e =>
            let log :=
              {| id := rid;
                 sessionId := sid;
                 timestamp := startTime;
                 method := method_of init;
                 url := url_of input;
                 requestHeaders := requestHeaders_of init;
                 requestBody := requestBody_of init;
                 status := 0;
                 statusText := "Error";
                 responseHeaders := ∅;
                 responseBody := None;
                 duration := (endTime - startTime)%Z;
                 error := Some (error_text e) |} in
            let '(store', calls) := addLog now sid log store in
            (Rejected e, store', calls)
        end
  end.

(** What a call of the primitive comes to.  [Ends s]: its promise settles
    as [s] and, when it resolved, the reading of the cloned body ends (with
    the text, or by throwing: [resp_text]).  [Unending response]: its
    promise resolves with [response], and the promise of [cloned.text()]
    never settles (a body that is never closed); [resp_text] is not read.
    [Pending]: its promise never settles. *)
Inductive Fetched :=
  | Ends (s : Settled)
  | Unending (response : Response)
  | Pending.

(** How the promise of the primitive settles, when it does. *)
Definition settlement (f : Fetched) : option Settled :=
  match f with
  | Ends s => Some s
  | Unending response => Some (Resolved response)
  | Pending => None
  end.

(** Whether the wrapper goes past its two guards: a session id that is
    not falsy, and a URL without [/__netview/]. *)
Definition intercepted (cookies : Cookies) (input : RequestInfo) : bool :=
  match getSessionId cookies with
  | None => false
  | Some sid => negb (bool_decide (sid = "")) && negb (includes (url_of input) "/__netview/")
  end.

(** The wrapped [fetch] over every outcome of the primitive; the first
    component is [None] when the promise it returns never settles.  Before
    the guards the promise of the primitive is returned as it is.  Past
    them, [await originalFetch(input, init)] and [await cloned.text()] come
    before [store.addLog] and before the return: while one of them is
    pending nothing is recorded and the call is not settled, and when both
    end the call goes on as [netviewFetch] describes. *)
Definition netviewFetchAsync
    (originalFetch : RequestInfo → option RequestInit → Fetched)
    (cookies : Cookies) (rid : string) (startTime endTime now : Z)
    (input : RequestInfo) (init : option RequestInit) (store : SessionStore)
  : option Settled * SessionStore * list (nat * ServerFetchLog) :=
  if intercepted cookies input then
    match originalFetch input init with
    | Ends s =>
        let '(s', store', calls) :=
          netviewFetch (λ _ _, s) cookies rid startTime endTime now input init store in
        (Some s', store', calls)
    | Unending _ | Pending => (None, store, [])
    end
  else (settlement (originalFetch input init), store, []).

(** The module-level state of the server package: [isRegistered] of
    interceptor.ts and [storeInstance] of store.ts. *)
Record Process := mkProcess {
  isRegistered : bool;
  storeInstance : option SessionStore
}.

Definition registerNetView (options : NetViewOptions) (p : Process) : Process :=
  if isRegistered p then p
  else {| isRegistered := true;
          storeInstance := (initStore options (storeInstance p)).1 |}.

(** ** stream.ts *)

(** What a [data:] frame carries before [JSON.stringify]: a record, or
    the object [{ error: msg }]. *)
Inductive Payload :=
  | LogPayload (log : ServerFetchLog)
  | ErrorPayload (msg : string).

(** One chunk enqueued on the stream: a comment line [: text] or a
    message [data: json], each followed by an empty line. *)
Inductive Frame :=
  | Comment (text : string)
  | Data (payload : Payload).

(** The [ReadableStream] of the response: the chunks enqueued so far,
    whether [controller.close()] was called, and the variable
    [unsubscribe] of the handler. *)
Record EventStream := mkStream {
  frames : list Frame;
  closed : bool;
  unsubscribe_handle : option (nat * nat)
}.

Inductive HttpResponse :=
  | PlainResponse (body : string) (code : Z)
  | StreamResponse (stream : EventStream).

(** How a call ends: with a value, or with an exception leaving it. *)
Inductive Completion (A : Type) :=
  | Returns (a : A)
  | Throws (msg : string).
Arguments Returns {A} a.
Arguments Throws {A} msg.

(** The listener [send] of one connection. *)
Definition send (log : ServerFetchLog) : Frame := Data (LogPayload log).

(** [GET]: [session] is [searchParams.get('session')], [send_id] the
    identity of the closure [send] of this connection, [now] the clock
    read by [subscribe].  The [start] callback of the stream runs while
    the stream is constructed. *)
Definition GET (session : option string) (send_id : nat) (now : Z)
    (instance : option SessionStore)
  : Completion (HttpResponse * option SessionStore) :=
  match session with
  | None => Returns (PlainResponse "Missing session parameter" 400, instance)
  | Some sid =>
      if bool_decide (sid = "")
      then Returns (PlainResponse "Missing session parameter" 400, instance)
      else
        match getStore instance with
        | inr store =>
            let '(store', h, calls) := subscribe now sid send_id store in
            Returns
              (StreamResponse
                 {| frames := Comment "connected" :: map (λ c, send c.2) calls;
                    closed := false;
                    unsubscribe_handle := Some h |},
               Some store')
        | inl _ =>
            Returns
              (StreamResponse
                 {| frames := [Comment "connected";
                               Data (ErrorPayload "NetView not initialized")];
                    closed := true;
                    unsubscribe_handle := None |},
               instance)
        end
  end.

(** [cancel()]: [if (unsubscribe) unsubscribe()]. *)
Definition cancel (s : EventStream) (store : SessionStore) : SessionStore :=
  match unsubscribe_handle s with
  | Some h => unsubscribe h store
  | None => store
  end.

End Server.

(** ** src/shared/types.ts and src/content/index.tsx *)

Module Client.

(** The values [JSON.parse] puts in the fields of a frame. *)
Inductive JsVal :=
  | JUndefined
  | JNull
  | JBool (b : bool)
  | JNum (z : Z)
  | JStr (s : string)
  | JObj (fields : gmap string string).

(** JavaScript truthiness, as tested by [if (log.error)]. *)
Definition truthy (v : JsVal) : bool :=
  match v with
  | JUndefined | JNull => false
  | JBool b => b
  | JNum z => negb (z =? 0)%Z
  | JStr s => negb (bool_decide (s = ""))
  | JObj _ => true
  end.

(** The text a template literal inserts for a value. *)
Definition toString (v : JsVal) : string :=
  match v with
  | JUndefined => "undefined"
  | JNull => "null"
  | JBool true => "true"
  | JBool false => "false"
  | JNum z => pretty z
  | JStr s => s
  | JObj _ => "[object Object]"
  end.

Inductive RequestState := StatePending | StateCompleted | StateError.
Inductive RequestSource := SourceClient | SourceServer.
Inductive RequestType := TypeFetch | TypeXhr.

Record NetworkRequest := mkRequest {
  id : string;
  timestamp : JsVal;
  method : JsVal;
  url : JsVal;
  requestHeaders : JsVal;
  requestBody : JsVal;
  status : JsVal;
  statusText : JsVal;
  responseHeaders : JsVal;
  responseBody : JsVal;
  duration : JsVal;
  type : RequestType;
  source : RequestSource;
  state : RequestState;
  error : JsVal
}.

(** Property access on a decoded object. *)
Definition get (log : gmap string JsVal) (k : string) : JsVal :=
  default JUndefined (log !! k).

(** [eventSource.onmessage].  [data] is what [JSON.parse(event.data)]
    gives: [None] when parsing throws or yields [null] (the access to
    [log.error] then throws, inside the same [try]), otherwise the
    properties of the value.  [requests] is the value of [requestsAtom]. *)
Definition onmessage (data : option (gmap string JsVal)) (requests : list NetworkRequest)
  : list NetworkRequest :=
  match data with
  | None => requests
  | Some log =>
      if truthy (get log "error") then requests
      else
        requests ++
        [ {| id := "server-" +:+ toString (get log "id");
             timestamp := get log "timestamp";
             method := get log "method";
             url := get log "url";
             requestHeaders := get log "requestHeaders";
             requestBody := get log "requestBody";
             status := get log "status";
             statusText := get log "statusText";
             responseHeaders := get log "responseHeaders";
             responseBody := get log "responseBody";
             duration := get log "duration";
             type := TypeFetch;
             source := SourceServer;
             state := if truthy (get log "error") then StateError else StateCompleted;
             error := get log "error" |} ]
  end.

Definition json_of_body (b : option string) : JsVal :=
  match b with
  | Some s => JStr s
  | None => JNull
  end.

(** The object the client decodes from the frame the endpoint writes for
    a payload, [JSON.parse(JSON.stringify(payload))]: a property whose
    value is [undefined] is left out, [null] stays. *)
Definition decode (p : Server.Payload) : gmap string JsVal :=
  match p with
  | Server.ErrorPayload msg => {[ "error" := JStr msg ]}
  | Server.LogPayload l =>
      let fields : gmap string JsVal :=
        <["id" := JStr (Server.id l)]>
        (<["sessionId" := JStr (Server.sessionId l)]>
        (<["timestamp" := JNum (Server.timestamp l)]>
        (<["method" := JStr (Server.method l)]>
        (<["url" := JStr (Server.url l)]>
        (<["requestHeaders" := JObj (Server.requestHeaders l)]>
        (<["requestBody" := json_of_body (Server.requestBody l)]>
        (<["status" := JNum (Server.status l)]>
        (<["statusText" := JStr (Server.statusText l)]>
        (<["responseHeaders" := JObj (Server.responseHeaders l)]>
        (<["responseBody" := json_of_body (Server.responseBody l)]>
        (<["duration" := JNum (Server.duration l)]> ∅))))))))))) in
      match Server.error l with
      | Some msg => <["error" := JStr msg]> fields
      | None => fields
      end
  end.

(** The message events a connection dispatches for the frames of a
    stream: comment lines dispatch nothing. *)
Definition messages (fs : list Server.Frame) : list (option (gmap string JsVal)) :=
  omap (λ f, match f with
             | Server.Comment _ => None
             | Server.Data p => Some (Some (decode p))
             end) fs.

End Client.

Import Server.

(** * Vocabulary of the properties *)

(** Every reference held by the map of the store points to a buffer. *)
Definition wf (st : SessionStore) : Prop :=
  ∀ sid r, sessions st !! sid = Some r → is_Some (heap st !! r).

(** The [n] most recent elements of a history. *)
Definition keep {A} (n : nat) (l : list A) : list A := drop (length l - n) l.

(** A run of [addLog] calls on one session, each with its clock reading. *)
Definition addLogs (sid : string) (calls : list (Z * ServerFetchLog)) (st : SessionStore)
  : SessionStore :=
  foldl (λ s c, (addLog c.1 sid c.2 s).1) st calls.

Definition subscribers_of (sid : string) (st : SessionStore) : list nat :=
  match session sid st with
  | Some b => subscribers b
  | None => []
  end.

(** The operations on a store, each with the time at which it runs
    ([getBufferedLogs] does not read the clock, [unsubscribe] neither). *)
Inductive Op :=
  | OpAddLog (now : Z) (sid : string) (log : ServerFetchLog)
  | OpSubscribe (now : Z) (sid : string) (cb : nat)
  | OpUnsubscribe (h : nat * nat)
  | OpGetBufferedLogs (now : Z) (sid : string)
  | OpCleanup (now : Z).

Definition step (op : Op) (st : SessionStore) : SessionStore * list (nat * ServerFetchLog) :=
  match op with
  | OpAddLog now sid log => addLog now sid log st
  | OpSubscribe now sid cb => let '(st', _, calls) := subscribe now sid cb st in (st', calls)
  | OpUnsubscribe h => (unsubscribe h st, [])
  | OpGetBufferedLogs _ sid => let _ := getBufferedLogs sid st in (st, [])
  | OpCleanup now => (cleanup now st, [])
  end.

(** A sequence of operations: the final store and all the listener calls
    made, in order. *)
Fixpoint run (ops : list Op) (st : SessionStore) : SessionStore * list (nat * ServerFetchLog) :=
  match ops with
  | [] => (st, [])
  | op :: ops' =>
      let '(st1, c1) := step op st in
      let '(st2, c2) := run ops' st1 in
      (st2, c1 ++ c2)
  end.

(** The calls a given listener received. *)
Definition received (cb : nat) (calls : list (nat * ServerFetchLog)) : list ServerFetchLog :=
  (filter (λ c, c.1 = cb) calls).*2.

(** The handles called in a sequence of operations. *)
Definition unsubscribed (ops : list Op) : list (nat * nat) :=
  omap (λ op, match op with OpUnsubscribe h => Some h | _ => None end) ops.

(** [a] comes before [b] in [l]. *)
Definition before {A} (a b : A) (l : list A) : Prop :=
  ∃ l1 l2 l3, l = l1 ++ a :: l2 ++ b :: l3.

(** The serialization of form data the specification describes:
    one line [key: value] per entry, joined by newlines. *)
Definition formDataLines (entries : list (string * string)) : string :=
  String.concat (String (Ascii.ascii_of_nat 10) EmptyString)
    (map (λ kv, kv.1 +:+ ": " +:+ kv.2) entries).

(** Sample data for the concrete instances. *)
Definition sample (name : string) : ServerFetchLog :=
  {| id := name; sessionId := "s1"; timestamp := 1; method := "GET";
     url := "http://api.test/" +:+ name; requestHeaders := ∅; requestBody := None;
     status := 200; statusText := "OK"; responseHeaders := ∅;
     responseBody := Some name; duration := 3; error := None |}.

Definition logA : ServerFetchLog := sample "A".
Definition logB : ServerFetchLog := sample "B".
Definition logC : ServerFetchLog := sample "C".

(** [new SessionStore({ maxLogsPerSession: 2, ttlSeconds: 60 })]. *)
Definition store2 : SessionStore :=
  new_SessionStore (mkOptions (Some 2%Z) (Some 60%Z) None).

(** [new SessionStore({ maxLogsPerSession: 0 })]. *)
Definition store0 : SessionStore :=
  new_SessionStore (mkOptions (Some 0%Z) None None).

(** A primitive that always rejects with the given value. *)
Definition failingFetch (e : Thrown) : RequestInfo → option RequestInit → Settled :=
  λ _ _, Rejected e.

(** A primitive that always resolves with an empty 200 response. *)
Definition okFetch : RequestInfo → option RequestInit → Settled :=
  λ _ _, Resolved (mkResponse 200 "OK" [] (Some "")).

(** A request context whose session cookie is [abc]. *)
Definition cookiesAbc : Cookies := CookieStore {[ COOKIE_NAME := "abc" ]}.

(** The state of every server-origin record of a collection is
    [completed]. *)
Definition server_completed (requests : list Client.NetworkRequest) : Prop :=
  Forall (λ r, Client.source r = Client.SourceServer →
               Client.state r = Client.StateCompleted) requests.

(** Distinct sessions are held in distinct buffer objects. *)
Definition inj_sessions (st : SessionStore) : Prop :=
  ∀ s1 s2 r, sessions st !! s1 = Some r → sessions st !! s2 = Some r → s1 = s2.

(** A property of every buffer object of the store. *)
Definition all_buffers (P : SessionBuffer → Prop) (st : SessionStore) : Prop :=
  ∀ r b, heap st !! r = Some b → P b.

(** [buffer.logs.push(log)] after the conditional [shift]. *)
Definition push (max : Z) (log : ServerFetchLog) (b : SessionBuffer) : SessionBuffer :=
  {| logs := evict max (logs b) ++ [log];
     lastAccess := lastAccess b;
     subscribers := subscribers b |}.

Definition with_subscribers (f : list nat → list nat) (b : SessionBuffer) : SessionBuffer :=
  {| logs := logs b; lastAccess := lastAccess b; subscribers := f (subscribers b) |}.

(** The merged collection after the message events of a stream. *)
Definition deliver (datas : list (option (gmap string Client.JsVal)))
    (requests : list Client.NetworkRequest) : list Client.NetworkRequest :=
  foldl (λ rs d, Client.onmessage d rs) requests datas.

(** The records whose [error] field is absent or the empty string. *)
Definition unfailed (l : ServerFetchLog) : bool :=
  match error l with
  | Some msg => bool_decide (msg = "")
  | None => true
  end.

(** The module state of a server process that has not registered. *)
Definition process0 : Process := {| isRegistered := false; storeInstance := None |}.

(** ** src/injected/interceptor.ts and the message handler of
    src/content/index.tsx

    The in-page interceptor posts messages to the window; the content
    script handles them and updates the collection of requests.  Here a
    request of the collection is the JavaScript object itself, a finite map
    from property names to values, so that the spread [{...req, ...payload}]
    is the union of two maps with the payload first. *)

Module Page.

Import Client.

(** [a === b]; two objects are never the same object. *)
Definition strict_eq (a b : JsVal) : bool :=
  match a, b with
  | JUndefined, JUndefined => true
  | JNull, JNull => true
  | JBool x, JBool y => bool_decide (x = y)
  | JNum x, JNum y => bool_decide (x = y)
  | JStr x, JStr y => bool_decide (x = y)
  | _, _ => false
  end.

(** [a || b]. *)
Definition or_else (a b : JsVal) : JsVal := if truthy a then a else b.

(** [event.data] when it is an object: its properties [source], [type]
    and [payload] ([None] when [payload] is not an object). *)
Record Message := mkMessage {
  msg_source : JsVal;
  msg_type : JsVal;
  msg_payload : option (gmap string JsVal)
}.

(** A message event: whether [event.source] is the window, and
    [event.data] ([None] when it is not an object). *)
Record MessageEvent := mkEvent {
  from_window : bool;
  data : option Message
}.

(** The object literal of the [request-start] branch. *)
Definition newRequest (payload : gmap string JsVal) : gmap string JsVal :=
  <["id" := get payload "id"]>
  (<["timestamp" := get payload "timestamp"]>
  (<["method" := get payload "method"]>
  (<["url" := get payload "url"]>
  (<["requestHeaders" := or_else (get payload "requestHeaders") (JObj ∅)]>
  (<["requestBody" := or_else (get payload "requestBody") JNull]>
  (<["type" := get payload "type"]>
  (<["source" := JStr "client"]>
  (<["state" := JStr "pending"]> ∅)))))))).

(** [req.id === payload.id ? { ...req, ...payload } : req]. *)
Definition merge (payload req : gmap string JsVal) : gmap string JsVal :=
  if strict_eq (get req "id") (get payload "id") then payload ∪ req else req.

(** [handleMessage]; [requests] is the value of [requestsAtom].  When
    [payload] is not an object the access to [payload.id] throws and the
    collection stays as it is. *)
Definition handleMessage (event : MessageEvent) (requests : list (gmap string JsVal))
  : list (gmap string JsVal) :=
  if negb (from_window event) then requests
  else
    match data event with
    | None => requests
    | Some m =>
        if negb (strict_eq (msg_source m) (JStr "netview-interceptor")) then requests
        else if strict_eq (msg_type m) (JStr "request-start") then
          match msg_payload m with
          | Some payload => requests ++ [newRequest payload]
          | None => requests
          end
        else if strict_eq (msg_type m) (JStr "request-complete")
                || strict_eq (msg_type m) (JStr "request-error") then
          match msg_payload m with
          | Some payload => map (merge payload) requests
          | None => requests
          end
        else requests
    end.

(** The object a request built by [Client.onmessage] is. *)
Definition to_object (r : NetworkRequest) : gmap string JsVal :=
  <["id" := JStr (id r)]>
  (<["timestamp" := timestamp r]>
  (<["method" := method r]>
  (<["url" := url r]>
  (<["requestHeaders" := requestHeaders r]>
  (<["requestBody" := requestBody r]>
  (<["status" := status r]>
  (<["statusText" := statusText r]>
  (<["responseHeaders" := responseHeaders r]>
  (<["responseBody" := responseBody r]>
  (<["duration" := duration r]>
  (<["type" := JStr match type r with TypeFetch => "fetch" | TypeXhr => "xhr" end]>
  (<["source" := JStr match source r with
                      | SourceClient => "client"
                      | SourceServer => "server"
                      end]>
  (<["state" := JStr match state r with
                     | StatePending => "pending"
                     | StateCompleted => "completed"
                     | StateError => "error"
                     end]>
  (<["error" := error r]> ∅)))))))))))))).

(** The body of a request as the in-page interceptor sees it; the values
    of a [FormData] and a body of another kind are given by the text
    string conversion gives. *)
Inductive BodyInit :=
  | BodyString (s : string)
  | BodyFormData (entries : list (string * string))
  | BodyURLSearchParams (text : string)
  | BodyBlob
  | BodyArrayBuffer
  | BodyOther (text : string).

(** [getBodyString]. *)
Definition getBodyString (body : option BodyInit) : option string :=
  match body with
  | None => None
  | Some (BodyString s) => if bool_decide (s = "") then None else Some s
  | Some (BodyFormData entries) =>
      Some (String.concat (String (Ascii.ascii_of_nat 10) EmptyString)
              (map (λ kv, kv.1 +:+ ": " +:+ kv.2) entries))
  | Some (BodyURLSearchParams text) => Some text
  | Some BodyBlob => Some "[Blob]"
  | Some BodyArrayBuffer => Some "[ArrayBuffer]"
  | Some (BodyOther text) => Some text
  end.

(** The same body as the server-side interceptor classifies it. *)
Definition server_body (b : BodyInit) : Server.BodyInit :=
  match b with
  | BodyString s => Server.BodyString s
  | BodyFormData entries => Server.BodyFormData entries
  | BodyURLSearchParams text => Server.BodyURLSearchParams text
  | BodyBlob | BodyArrayBuffer | BodyOther _ => Server.BodyOther
  end.

Record RequestInit := mkInit {
  init_method : option string;
  init_headers : option HeadersInit;
  init_body : option BodyInit
}.

(** A response of the page: what the interceptor reads of it, and the
    value [response.clone()] throws when it throws.  A body whose reading
    never ends is the case [Unending] of [Fetched] below. *)
Record Response := mkResponse {
  response : Server.Response;
  clone_throws : option Thrown
}.

Inductive Settled :=
  | Resolved (r : Response)
  | Rejected (reason : Thrown).

(** [parseHeaders], and the normalisation of [init.headers]. *)
Definition requestHeaders_of (init : option RequestInit) : gmap string string :=
  match init ≫= init_headers with
  | Some (HeadersObject entries) => headersToRecord entries
  | Some (HeadersArray pairs) => headersToRecord pairs
  | Some (HeadersRecord fields) => fields
  | None => ∅
  end.

(** [postToContentScript(message)]: the event the content script
    receives. *)
Definition posted (type : string) (payload : gmap string JsVal) : MessageEvent :=
  {| from_window := true;
     data := Some {| msg_source := JStr "netview-interceptor";
                     msg_type := JStr type;
                     msg_payload := Some payload |} |}.

(** The wrapped [window.fetch].  [toUpperCase] is the string method of
    the platform, [rid] the identifier [generateId()] draws, [startTime]
    and [endTime] the clock readings.  Returns how the call settles and the
    messages posted, in order. *)
Definition pageFetch (toUpperCase : string → string)
    (originalFetch : RequestInfo → option RequestInit → Settled)
    (rid : string) (startTime endTime : Z)
    (input : RequestInfo) (init : option RequestInit)
  : Settled * list MessageEvent :=
  let method :=
    match toUpperCase <$> (init ≫= init_method) with
    | Some m => if bool_decide (m = "") then "GET" else m
    | None => "GET"
    end in
  let start :=
    posted "request-start"
      (<["id" := JStr rid]>
      (<["timestamp" := JNum startTime]>
      (<["method" := JStr method]>
      (<["url" := JStr (url_of input)]>
      (<["requestHeaders" := JObj (requestHeaders_of init)]>
      (<["requestBody" := json_of_body (getBodyString (init ≫= init_body))]>
      (<["type" := JStr "fetch"]>
      (<["state" := JStr "pending"]> ∅)))))))) in
  let failed (e : Thrown) :=
    posted "request-error"
      (<["id" := JStr rid]>
      (<["duration" := JNum (endTime - startTime)]>
      (<["state" := JStr "error"]>
      (<["error" := JStr (error_text e)]> ∅)))) in
  match originalFetch input init with
  | Resolved r =>
      match clone_throws r with
      | Some e => (Rejected e, [start; failed e])
      | None =>
          (Resolved r,
           [start;
            posted "request-complete"
              (<["id" := JStr rid]>
              (<["status" := JNum (resp_status (response r))]>
              (<["statusText" := JStr (resp_statusText (response r))]>
              (<["responseHeaders" := JObj (headersToRecord (resp_headers (response r)))]>
              (<["responseBody" :=
                   JStr (default "[Unable to read response body]"
                           (resp_text (response r)))]>
              (<["duration" := JNum (endTime - startTime)]>
              (<["state" := JStr "completed"]> ∅)))))))])
      end
  | Rejected e => (Rejected e, [start; failed e])
  end.

(** What a call of the primitive of the page comes to: as
    [Server.Fetched], with the responses of the page. *)
Inductive Fetched :=
  | Ends (s : Settled)
  | Unending (r : Response)
  | Pending.

(** How the promise of the primitive settles, when it does. *)
Definition settlement (f : Fetched) : option Settled :=
  match f with
  | Ends s => Some s
  | Unending r => Some (Resolved r)
  | Pending => None
  end.

(** The [request-start] message of a call. *)
Definition requestStart (toUpperCase : string → string) (rid : string) (startTime : Z)
    (input : RequestInfo) (init : option RequestInit) : MessageEvent :=
  posted "request-start"
    (<["id" := JStr rid]>
    (<["timestamp" := JNum startTime]>
    (<["method" := JStr match toUpperCase <$> (init ≫= init_method) with
                        | Some m => if bool_decide (m = "") then "GET" else m
                        | None => "GET"
                        end]>
    (<["url" := JStr (url_of input)]>
    (<["requestHeaders" := JObj (requestHeaders_of init)]>
    (<["requestBody" := json_of_body (getBodyString (init ≫= init_body))]>
    (<["type" := JStr "fetch"]>
    (<["state" := JStr "pending"]> ∅)))))))).

(** The wrapped [window.fetch] over every outcome of the primitive; the
    first component is [None] when the promise it returns never settles.
    The start message is posted before the first [await].  While
    [await originalFetch(input, init)] or [await clone.text()] is pending
    no second message is posted and the call is not settled;
    [response.clone()] comes before [clone.text()], so that a response
    whose [clone()] throws is settled whatever its body; when both promises
    settle the call goes on as [pageFetch] describes. *)
Definition pageFetchAsync (toUpperCase : string → string)
    (originalFetch : RequestInfo → option RequestInit → Fetched)
    (rid : string) (startTime endTime : Z)
    (input : RequestInfo) (init : option RequestInit)
  : option Settled * list MessageEvent :=
  let settled (s : Settled) :=
    let '(s', messages) :=
      pageFetch toUpperCase (λ _ _, s) rid startTime endTime input init in
    (Some s', messages) in
  match originalFetch input init with
  | Ends s => settled s
  | Unending r =>
      match clone_throws r with
      | Some _ => settled (Resolved r)
      | None => (None, [requestStart toUpperCase rid startTime input init])
      end
  | Pending => (None, [requestStart toUpperCase rid startTime input init])
  end.

(** The collection after a sequence of message events. *)
Definition handleAll (events : list MessageEvent) (requests : list (gmap string JsVal))
  : list (gmap string JsVal) :=
  foldl (λ rs e, handleMessage e rs) requests events.

End Page.

(** The frames the listener of a connection enqueues for the calls made
    to it: each call [send(log)] enqueues one message. *)
Definition enqueued (send_id : nat) (calls : list (nat * ServerFetchLog)) : list Frame :=
  map (λ c, send c.2) (filter (λ c, c.1 = send_id) calls).

(** The record [netviewFetch] builds when the call resolves. *)
Definition responseLog (rid sid : string) (startTime endTime : Z) (input : RequestInfo)
    (init : option RequestInit) (response : Response) : ServerFetchLog :=
  {| id := rid;
     sessionId := sid;
     timestamp := startTime;
     method := method_of init;
     url := url_of input;
     requestHeaders := requestHeaders_of init;
     requestBody := requestBody_of init;
     status := resp_status response;
     statusText := resp_statusText response;
     responseHeaders := headersToRecord (resp_headers response);
     responseBody := Some (default "[Unable to read body]" (resp_text response));
     duration := (endTime - startTime)%Z;
     error := None |}.

(** The record [netviewFetch] builds when the call rejects. *)
Definition rejectionLog (rid sid : string) (startTime endTime : Z) (input : RequestInfo)
    (init : option RequestInit) (e : Thrown) : ServerFetchLog :=
  {| id := rid;
     sessionId := sid;
     timestamp := startTime;
     method := method_of init;
     url := url_of input;
     requestHeaders := requestHeaders_of init;
     requestBody := requestBody_of init;
     status := 0;
     statusText := "Error";
     responseHeaders := ∅;
     responseBody := None;
     duration := (endTime - startTime)%Z;
     error := Some (error_text e) |}.

(** The records of the [addLog] calls to a session in a sequence of
    operations, in the order of the calls. *)
Definition added (sid : string) (ops : list Op) : list ServerFetchLog :=
  omap (λ op, match op with
              | OpAddLog _ s log => if bool_decide (s = sid) then Some log else None
              | _ => None
              end) ops.

(** No operation of the sequence removes the session from the store: no
    sweep of the sequence finds it expired. *)
Fixpoint never_dropped (sid : string) (ops : list Op) (st : SessionStore) : Prop :=
  match ops with
  | [] => True
  | op :: ops' =>
      (is_Some (sessions st !! sid) → is_Some (sessions (step op st).1 !! sid))
      ∧ never_dropped sid ops' (step op st).1
  end.

(** No buffer object of the store is longer than the configured
    capacity. *)
Definition within_capacity (st : SessionStore) : Prop :=
  all_buffers (λ b, (Z.of_nat (length (logs b)) ≤ maxLogsPerSession st)%Z) st.

(** The listener [cb] of a connection to the session [sid] is live: the
    session is held in the buffer object [r], [cb] is in the listener set
    of the session, once, and in that of no other session. *)
Definition connected (sid : string) (r cb : nat) (st : SessionStore) : Prop :=
  wf st
  ∧ inj_sessions st
  ∧ sessions st !! sid = Some r
  ∧ NoDup (subscribers_of sid st)
  ∧ cb ∈ subscribers_of sid st
  ∧ ∀ s, s ≠ sid → cb ∉ subscribers_of s st.

(** * Properties of the store *)

Lemma wf_new options : wf (new_SessionStore options).
Proof. intros sid r H. cbn in H. by rewrite lookup_empty in H. Qed.

Lemma getOrCreateSession_spec now sid st st1 r :
  wf st →
  getOrCreateSession now sid st = (st1, r) →
  wf st1
  ∧ sessions st1 !! sid = Some r
  ∧ heap st1 !! r = Some {| logs := getBufferedLogs sid st; lastAccess := now;
                            subscribers := subscribers_of sid st |}
  ∧ maxLogsPerSession st1 = maxLogsPerSession st
  ∧ ttlMs st1 = ttlMs st.
Proof.
  intros Hwf. unfold getOrCreateSession, getBufferedLogs, subscribers_of, session.
  destruct (sessions st !! sid) as [r0|] eqn:Hs; intros [= <- <-]; cbn.
  - destruct (Hwf _ _ Hs) as [b Hb]. rewrite Hb. cbn.
    split_and!; try done.
    + intros sid' r' H'. cbn in *. rewrite lookup_alter.
      destruct (Hwf _ _ H') as [b' Hb']. case_decide; subst; rewrite ?Hb, ?Hb'; by eauto.
    + rewrite lookup_alter_eq, Hb. done.
  - assert (Hfresh : heap st !! fresh (dom (heap st)) = None).
    { apply not_elem_of_dom, is_fresh. }
    split_and!; try done.
    + intros sid' r' H'. cbn in *.
      destruct (decide (r' = fresh (dom (heap st)))) as [->|Hne].
      * rewrite lookup_insert_eq. eauto.
      * rewrite lookup_insert_ne by done.
        rewrite lookup_insert in H'. case_decide; simplify_eq. by eapply Hwf.
    + by rewrite lookup_insert_eq.
    + by rewrite lookup_insert_eq.
Qed.

Lemma wf_set_heap_insert st r b :
  wf st → wf (set_heap (<[r := b]> (heap st)) st).
Proof.
  intros Hwf sid r' H'. cbn in *. rewrite lookup_insert.
  case_decide; [by eauto | by eapply Hwf].
Qed.

Lemma session_set_heap_insert st sid r b :
  sessions st !! sid = Some r →
  session sid (set_heap (<[r := b]> (heap st)) st) = Some b.
Proof. intros H. unfold session. cbn. rewrite H. cbn. by rewrite lookup_insert_eq. Qed.

Lemma addLog_spec now sid log st :
  wf st →
  wf (addLog now sid log st).1
  ∧ session sid (addLog now sid log st).1 =
      Some {| logs := evict (maxLogsPerSession st) (getBufferedLogs sid st) ++ [log];
              lastAccess := now;
              subscribers := subscribers_of sid st |}
  ∧ (addLog now sid log st).2 = notify log (subscribers_of sid st)
  ∧ maxLogsPerSession (addLog now sid log st).1 = maxLogsPerSession st
  ∧ ttlMs (addLog now sid log st).1 = ttlMs st.
Proof.
  intros Hwf. unfold addLog.
  destruct (getOrCreateSession now sid st) as [st1 r] eqn:Hg.
  destruct (getOrCreateSession_spec _ _ _ _ _ Hwf Hg) as (Hwf1 & Hs1 & Hh1 & Hm & Ht).
  rewrite Hh1. cbn. split_and!; try done.
  - by apply wf_set_heap_insert.
  - rewrite Hm. by apply session_set_heap_insert.
Qed.

Lemma subscribe_spec now sid cb st :
  wf st →
  wf (subscribe now sid cb st).1.1
  ∧ sessions (subscribe now sid cb st).1.1 !! sid = Some (subscribe now sid cb st).1.2.1
  ∧ (subscribe now sid cb st).1.2.2 = cb
  ∧ session sid (subscribe now sid cb st).1.1 =
      Some {| logs := getBufferedLogs sid st;
              lastAccess := now;
              subscribers := set_add cb (subscribers_of sid st) |}
  ∧ (subscribe now sid cb st).2 = replay cb (getBufferedLogs sid st)
  ∧ maxLogsPerSession (subscribe now sid cb st).1.1 = maxLogsPerSession st
  ∧ ttlMs (subscribe now sid cb st).1.1 = ttlMs st.
Proof.
  intros Hwf. unfold subscribe.
  destruct (getOrCreateSession now sid st) as [st1 r] eqn:Hg.
  destruct (getOrCreateSession_spec _ _ _ _ _ Hwf Hg) as (Hwf1 & Hs1 & Hh1 & Hm & Ht).
  rewrite Hh1. cbn. split_and!; try done.
  - by apply wf_set_heap_insert.
  - by apply session_set_heap_insert.
Qed.

Lemma wf_unsubscribe h st : wf st → wf (unsubscribe h st).
Proof.
  intros Hwf sid r H. cbn in *. rewrite lookup_alter.
  destruct (Hwf _ _ H) as [b Hb]. case_decide; subst; rewrite Hb; by eauto.
Qed.

(** What the loop of the sweep leaves in the map: the entries whose
    buffer has not expired. *)
Lemma cleanup_lookup now st sid :
  sessions (cleanup now st) !! sid =
    match sessions st !! sid with
    | Some r =>
        match heap st !! r with
        | Some b => if expired now (ttlMs st) b then None else Some r
        | None => Some r
        end
    | None => None
    end.
Proof.
  unfold cleanup. cbn.
  set (f := λ (sid : string) (r : nat) (acc : gmap string nat),
              match heap st !! r with
              | Some b => if expired now (ttlMs st) b then delete sid acc else acc
              | None => acc
              end).
  assert (Hgen : ∀ acc0 m,
    map_fold f acc0 m !! sid =
      match m !! sid with
      | Some r =>
          match heap st !! r with
          | Some b => if expired now (ttlMs st) b then None else acc0 !! sid
          | None => acc0 !! sid
          end
      | None => acc0 !! sid
      end).
  { intros acc0 m.
    apply (map_fold_weak_ind (λ (acc m0 : gmap string nat),
      acc !! sid =
        match m0 !! sid with
        | Some r =>
            match heap st !! r with
            | Some b => if expired now (ttlMs st) b then None else acc0 !! sid
            | None => acc0 !! sid
            end
        | None => acc0 !! sid
        end)).
    - by rewrite lookup_empty.
    - intros k r m' acc Hk IH. unfold f at 1.
      rewrite lookup_insert. case_decide as Hks.
      + subst k. rewrite Hk in IH.
        destruct (heap st !! r) as [b|]; [|done].
        destruct (expired now (ttlMs st) b); [by rewrite lookup_delete_eq | done].
      + destruct (heap st !! r) as [b|]; [|done].
        destruct (expired now (ttlMs st) b); [by rewrite lookup_delete_ne | done]. }
  rewrite Hgen. destruct (sessions st !! sid) as [r|] eqn:Hs; done.
Qed.

(** ** The buffer is bounded and first-in first-out *)

Lemma keep_length {A} (n : nat) (l : list A) : length (keep n l) = length l `min` n.
Proof. unfold keep. rewrite length_drop. lia. Qed.

Lemma keep_all {A} (n : nat) (l : list A) : length l ≤ n → keep n l = l.
Proof. intros H. unfold keep. by replace (length l - n) with 0 by lia. Qed.

Lemma keep_app_ge {A} (n : nat) (l k : list A) : n ≤ length k → keep n (l ++ k) = keep n k.
Proof.
  intros H. unfold keep. rewrite length_app.
  replace (length l + length k - n) with (length l + (length k - n)) by lia.
  by rewrite drop_app_add.
Qed.

(** One [shift]-then-[push] on the [n] most recent records of a history
    gives the [n] most recent records of the longer history. *)
Lemma evict_keep (n : nat) (hist : list ServerFetchLog) (x : ServerFetchLog) :
  1 ≤ n →
  evict (Z.of_nat n) (keep n hist) ++ [x] = keep n (hist ++ [x]).
Proof.
  intros Hn. unfold evict. rewrite keep_length. unfold keep.
  rewrite length_app. cbn [length].
  case_bool_decide as Hfull.
  - assert (n ≤ length hist) by lia.
    rewrite drop_drop.
    replace (length hist + 1 - n) with (length hist - n + 1) by lia.
    rewrite drop_app_le by lia. done.
  - assert (length hist < n) by lia.
    replace (length hist - n) with 0 by lia.
    replace (length hist + 1 - n) with 0 by lia. done.
Qed.

(** With a capacity of zero the limit the option names is not kept: one
    [addLog] leaves a buffer of length 1 ([shift] on the empty array
    removes nothing, [push] then appends). *)
Lemma addLog_exceeds_zero_capacity :
  maxLogsPerSession store0 = 0%Z
  ∧ getBufferedLogs "s1" (addLogs "s1" [(10%Z, logA)] store0) = [logA]
  ∧ ¬ (Z.of_nat (length (getBufferedLogs "s1" (addLogs "s1" [(10%Z, logA)] store0)))
       ≤ maxLogsPerSession store0)%Z.
Proof. vm_compute. split_and!; [done|done|]. intros H. by apply H. Qed.

(** ** Sequences of operations *)

Lemma wf_cleanup now st : wf st → wf (cleanup now st).
Proof.
  intros Hwf sid r H. rewrite cleanup_lookup in H.
  destruct (sessions st !! sid) as [r0|] eqn:Hs; [|done].
  destruct (Hwf _ _ Hs) as [b Hb]. rewrite Hb in H.
  destruct (expired now (ttlMs st) b); simplify_eq. cbn. eauto.
Qed.

Lemma wf_step op st : wf st → wf (step op st).1.
Proof.
  intros Hwf. destruct op as [now sid log|now sid cb|h|now sid|now]; cbn.
  - by apply addLog_spec.
  - destruct (subscribe_spec now sid cb st Hwf) as [H _].
    by destruct (subscribe now sid cb st) as [[? ?] ?].
  - by apply wf_unsubscribe.
  - done.
  - by apply wf_cleanup.
Qed.

Lemma run_cons op ops st :
  run (op :: ops) st = ((run ops (step op st).1).1, (step op st).2 ++ (run ops (step op st).1).2).
Proof.
  cbn [run]. destruct (step op st) as [st1 c1]. cbn.
  by destruct (run ops st1) as [st2 c2].
Qed.

(** No operation changes the configuration of the store. *)
Lemma step_config op st :
  maxLogsPerSession (step op st).1 = maxLogsPerSession st
  ∧ ttlMs (step op st).1 = ttlMs st.
Proof.
  destruct op as [now sid log|now sid cb|h|now sid|now]; cbn [step]; try done.
  - unfold addLog, getOrCreateSession.
    destruct (sessions st !! sid); cbn; [by destruct (alter _ _ _ !! _)|].
    by rewrite lookup_insert_eq.
  - unfold subscribe, getOrCreateSession.
    destruct (sessions st !! sid); cbn; [by destruct (alter _ _ _ !! _)|].
    by rewrite lookup_insert_eq.
Qed.

Lemma run_config ops : ∀ st,
  maxLogsPerSession (run ops st).1 = maxLogsPerSession st
  ∧ ttlMs (run ops st).1 = ttlMs st.
Proof.
  induction ops as [|op ops IH]; intros st; [done|].
  rewrite run_cons. cbn [fst].
  destruct (IH (step op st).1) as [-> ->]. apply step_config.
Qed.

Lemma wf_run ops : ∀ st, wf st → wf (run ops st).1.
Proof.
  induction ops as [|op ops IH]; intros st Hwf; [done|].
  rewrite run_cons. cbn. by apply IH, wf_step.
Qed.

Lemma received_app cb c1 c2 : received cb (c1 ++ c2) = received cb c1 ++ received cb c2.
Proof. unfold received. by rewrite filter_app, fmap_app. Qed.

Lemma received_replay cb l : received cb (replay cb l) = l.
Proof.
  unfold received, replay. induction l as [|x l IH]; [done|].
  cbn [map]. rewrite filter_cons_True by done. cbn. by rewrite IH.
Qed.

(** ** Replay before live *)

(** C2: a [subscribe] made when the buffer of the session holds the
    records [backlog] calls the listener with exactly those records, oldest
    first, during the call itself; and whatever operations follow, the
    records the listener receives from the registration on are the backlog
    followed by what those operations deliver. *)
Theorem subscribe_replays_backlog_first (st : SessionStore) (now : Z) (sid : string)
    (cb : nat) (ops : list Op) :
  wf st →
  let backlog := getBufferedLogs sid st in
  (subscribe now sid cb st).2 = map (λ log, (cb, log)) backlog
  ∧ received cb (subscribe now sid cb st).2 = backlog
  ∧ received cb (run (OpSubscribe now sid cb :: ops) st).2
    = backlog ++ received cb (run ops (subscribe now sid cb st).1.1).2.
Proof.
  intros Hwf backlog.
  destruct (subscribe_spec now sid cb st Hwf) as (_ & _ & _ & _ & Hcalls & _).
  split_and!.
  - exact Hcalls.
  - rewrite Hcalls. apply received_replay.
  - rewrite run_cons. cbn [fst snd step]. rewrite received_app.
    destruct (subscribe now sid cb st) as [[st1 h] calls] eqn:Hsub.
    cbn [fst snd] in *. by rewrite Hcalls, received_replay.
Qed.

Lemma subscribe_replays_backlog_first_witness :
  received 7 (run [OpSubscribe 40 "s1" 7; OpAddLog 50 "s1" logA]%Z
                  (addLogs "s1" [(10, logA); (20, logB); (30, logC)]%Z store2)).2
  = [logB; logC; logA].
Proof.
  destruct (subscribe_replays_backlog_first
              (addLogs "s1" [(10, logA); (20, logB); (30, logC)]%Z store2)
              40 "s1" 7 [OpAddLog 50 "s1" logA]) as (_ & _ & H).
  - apply (wf_run [OpAddLog 10 "s1" logA; OpAddLog 20 "s1" logB; OpAddLog 30 "s1" logC]
             store2), wf_new.
  - rewrite H. vm_compute. reflexivity.
Defined.

(** ** Fan-out to the registered listeners *)

Lemma getOrCreateSession_heap now sid st r b :
  heap st !! r = Some b →
  ∃ b', heap (getOrCreateSession now sid st).1 !! r = Some b'
        ∧ subscribers b' = subscribers b.
Proof.
  intros Hb. unfold getOrCreateSession.
  destruct (sessions st !! sid) as [r0|]; cbn.
  - rewrite lookup_alter. case_decide; subst; rewrite Hb; cbn; eauto.
  - rewrite lookup_insert_ne; [eauto|].
    intros Heq. apply (is_fresh (dom (heap st))). rewrite Heq.
    apply elem_of_dom. eauto.
Qed.

(** An operation changes the listeners of a buffer object only by a
    [Set.add], or by a [Set.delete] made through a handle on that object. *)
Lemma step_subscribers r op st b :
  heap st !! r = Some b →
  ∃ b', heap (step op st).1 !! r = Some b'
        ∧ (subscribers b' = subscribers b
           ∨ (∃ c, subscribers b' = set_add c (subscribers b))
           ∨ (∃ c, op = OpUnsubscribe (r, c)
                   ∧ subscribers b' = set_delete c (subscribers b))).
Proof.
  intros Hb. destruct op as [now sid log|now sid cb|[r0 c]|now sid|now]; cbn [step].
  - destruct (getOrCreateSession_heap now sid st r b Hb) as (b1 & Hb1 & Hsub).
    unfold addLog. destruct (getOrCreateSession now sid st) as [st1 r0]. cbn [fst] in Hb1.
    destruct (heap st1 !! r0) as [b0|] eqn:H0; cbn; [|eauto].
    rewrite lookup_insert. case_decide; simplify_eq; cbn; eauto.
  - destruct (getOrCreateSession_heap now sid st r b Hb) as (b1 & Hb1 & Hsub).
    unfold subscribe. destruct (getOrCreateSession now sid st) as [st1 r0]. cbn [fst] in Hb1.
    destruct (heap st1 !! r0) as [b0|] eqn:H0; cbn; [|eauto].
    rewrite lookup_insert. case_decide; simplify_eq; cbn; [|eauto].
    eexists. split; [done|]. cbn. rewrite Hsub. eauto.
  - cbn. rewrite lookup_alter. case_decide; simplify_eq; rewrite Hb; cbn; eauto 10.
  - eauto.
  - cbn. eauto.
Qed.

(** A property of the listener set of a buffer object that [Set.add]
    keeps, and [Set.delete] of anything outside [keepers] keeps, holds
    after any operations in which no handle of a keeper is called. *)
Lemma run_subscribers (Q : list nat → Prop) (keepers : list nat) r ops :
  (∀ c l, Q l → Q (set_add c l)) →
  (∀ c l, c ∉ keepers → Q l → Q (set_delete c l)) →
  (∀ c, c ∈ keepers → (r, c) ∉ unsubscribed ops) →
  ∀ st b, heap st !! r = Some b → Q (subscribers b) →
  ∃ b', heap (run ops st).1 !! r = Some b' ∧ Q (subscribers b').
Proof.
  intros Hadd Hdel. induction ops as [|op ops IH]; intros Hkeep st b Hb HQ; [by eauto|].
  rewrite run_cons. cbn [fst].
  destruct (step_subscribers r op st b Hb) as (b1 & Hb1 & Hcase).
  apply (IH) with (b := b1); [|done|].
  - intros c Hc Hin. apply (Hkeep c Hc). unfold unsubscribed. cbn [omap].
    destruct op; try done. by right.
  - destruct Hcase as [->|[[c ->]|(c & -> & ->)]]; [done|by apply Hadd|].
    apply Hdel; [|done]. intros Hc. apply (Hkeep c Hc).
    unfold unsubscribed. cbn [omap]. by left.
Qed.

Lemma elem_of_set_add c x l : x ∈ l → x ∈ set_add c l.
Proof. unfold set_add. case_decide; set_solver. Qed.

Lemma elem_of_set_add_new c l : c ∈ set_add c l.
Proof. unfold set_add. case_decide; set_solver. Qed.

Lemma elem_of_set_delete c x l : x ≠ c → x ∈ l → x ∈ set_delete c l.
Proof. intros Hne Hx. unfold set_delete. by apply list_elem_of_filter. Qed.

Lemma before_set_add {c a b : nat} l : before a b l → before a b (set_add c l).
Proof.
  unfold set_add. case_decide; [done|].
  intros (l1 & l2 & l3 & ->). exists l1, l2, (l3 ++ [c]).
  by rewrite <- !app_assoc, <- !app_comm_cons, <- app_assoc.
Qed.

Lemma before_set_delete {c a b : nat} l :
  a ≠ c → b ≠ c → before a b l → before a b (set_delete c l).
Proof.
  intros Ha Hb (l1 & l2 & l3 & ->). unfold set_delete.
  exists (filter (λ x, x ≠ c) l1), (filter (λ x, x ≠ c) l2), (filter (λ x, x ≠ c) l3).
  rewrite filter_app, filter_cons_True by done.
  by rewrite filter_app, filter_cons_True by done.
Qed.

Lemma before_fmap {A B} (f : A → B) a b (l : list A) :
  before a b l → before (f a) (f b) (map f l).
Proof.
  intros (l1 & l2 & l3 & ->). exists (map f l1), (map f l2), (map f l3).
  by rewrite !map_app, !map_cons, !map_app, !map_cons.
Qed.

Lemma getOrCreateSession_sessions now sid' st sid r :
  sessions st !! sid = Some r →
  sessions (getOrCreateSession now sid' st).1 !! sid = Some r.
Proof.
  intros Hs. unfold getOrCreateSession.
  destruct (sessions st !! sid') as [r'|] eqn:Hs'; cbn; [done|].
  rewrite lookup_insert_ne; [done|]. intros ->. by rewrite Hs in Hs'.
Qed.

(** Only the sweep removes a session from the map: in a sequence of
    operations without a sweep, a session stays in the buffer it has. *)
Lemma run_keeps_session_without_sweep sid r ops : ∀ st,
  sessions st !! sid = Some r →
  (∀ now, OpCleanup now ∉ ops) →
  sessions (run ops st).1 !! sid = Some r.
Proof.
  induction ops as [|op ops IH]; intros st Hs Hno; [done|].
  rewrite run_cons. cbn [fst]. apply IH.
  - destruct op as [now sid' log|now sid' cb|h|now sid'|now]; cbn [step].
    + pose proof (getOrCreateSession_sessions now sid' st sid r Hs) as H.
      unfold addLog. destruct (getOrCreateSession now sid' st) as [st1 r1].
      cbn [fst] in H. by destruct (heap st1 !! r1).
    + pose proof (getOrCreateSession_sessions now sid' st sid r Hs) as H.
      unfold subscribe. destruct (getOrCreateSession now sid' st) as [st1 r1].
      cbn [fst] in H. by destruct (heap st1 !! r1).
    + done.
    + done.
    + exfalso. apply (Hno now). by left.
  - intros now Hin. apply (Hno now). by right.
Qed.

(** C3, as amended: let a listener register on a session, and let any
    operations follow in which its handle is not called and after which the
    session is still held in the buffer the listener registered on (no sweep
    has deleted it in between).  Then an [addLog] to the session calls each
    current listener of the session once with the record, in the order of
    the listener set, before it returns; the listener is among them; and a
    listener that was registered before it, and whose handle was not called
    either, is called before it. *)
Theorem addLog_reaches_registered_listener (st : SessionStore) (t0 : Z) (sid : string)
    (cb : nat) (ops : list Op) (now : Z) (log : ServerFetchLog) :
  wf st →
  let st1 := (subscribe t0 sid cb st).1.1 in
  let h := (subscribe t0 sid cb st).1.2 in
  let st2 := (run ops st1).1 in
  h ∉ unsubscribed ops →
  sessions st2 !! sid = Some h.1 →
  (addLog now sid log st2).2 = map (λ c, (c, log)) (subscribers_of sid st2)
  ∧ (cb, log) ∈ (addLog now sid log st2).2
  ∧ ∀ cb0, cb0 ∈ subscribers_of sid st → cb ∉ subscribers_of sid st →
           (h.1, cb0) ∉ unsubscribed ops →
           before (cb0, log) (cb, log) (addLog now sid log st2).2.
Proof.
  intros Hwf st1 h st2 Hh Hsid.
  destruct (subscribe_spec t0 sid cb st Hwf) as (Hwf1 & Hs1 & Hcb & Hsess1 & _).
  fold st1 in Hwf1, Hs1, Hsess1. fold h in Hs1, Hcb.
  assert (Hheap1 : heap st1 !! h.1 =
            Some {| logs := getBufferedLogs sid st; lastAccess := t0;
                    subscribers := set_add cb (subscribers_of sid st) |}).
  { unfold session in Hsess1. by rewrite Hs1 in Hsess1. }
  assert (Hwf2 : wf st2) by by apply wf_run.
  destruct (addLog_spec now sid log st2 Hwf2) as (_ & _ & Hcalls & _).
  assert (Hh' : (h.1, cb) ∉ unsubscribed ops).
  { rewrite <- Hcb, <- surjective_pairing. exact Hh. }
  assert (Hsubs : ∀ b2, heap st2 !! h.1 = Some b2 → subscribers_of sid st2 = subscribers b2).
  { intros b2 Hb2. unfold subscribers_of, session. rewrite Hsid. cbn. by rewrite Hb2. }
  split_and!.
  - exact Hcalls.
  - destruct (run_subscribers (λ l, cb ∈ l) [cb] h.1 ops) with (st := st1)
      (b := {| logs := getBufferedLogs sid st; lastAccess := t0;
               subscribers := set_add cb (subscribers_of sid st) |})
      as (b2 & Hb2 & Hin); try done.
    + intros c l. apply elem_of_set_add.
    + intros c l Hc. apply elem_of_set_delete. set_solver.
    + intros c Hc. apply list_elem_of_singleton in Hc. by rewrite Hc.
    + apply elem_of_set_add_new.
    + rewrite Hcalls, (Hsubs _ Hb2). apply (list_elem_of_fmap_2 (λ c, (c, log))), Hin.
  - intros cb0 Hcb0 Hnew Hh0.
    destruct (run_subscribers (λ l, before cb0 cb l) [cb0; cb] h.1 ops) with (st := st1)
      (b := {| logs := getBufferedLogs sid st; lastAccess := t0;
               subscribers := set_add cb (subscribers_of sid st) |})
      as (b2 & Hb2 & Hbef); try done.
    + intros c l. apply before_set_add.
    + intros c l Hc. apply before_set_delete; set_solver.
    + intros c Hc. apply elem_of_cons in Hc as [Hc|Hc]; [by rewrite Hc|].
      apply list_elem_of_singleton in Hc. by rewrite Hc.
    + cbn. unfold set_add. rewrite decide_False by done.
      apply list_elem_of_split in Hcb0 as (l1 & l2 & ->).
      exists l1, l2, []. by rewrite <- app_assoc.
    + rewrite Hcalls, (Hsubs _ Hb2). by apply (before_fmap (λ c, (c, log))).
Qed.

Lemma addLog_reaches_registered_listener_witness :
  (addLog 3 "s1" logB
     (run [OpSubscribe 1 "s1" 8; OpAddLog 2 "s1" logA]%Z
          (subscribe 0 "s1" 7 store2).1.1).1).2
  = [(7, logB); (8, logB)].
Proof.
  destruct (addLog_reaches_registered_listener store2 0 "s1" 7
              [OpSubscribe 1 "s1" 8; OpAddLog 2 "s1" logA]%Z 3 logB) as (H & _ & _).
  - apply wf_new.
  - cbn. apply not_elem_of_nil.
  - vm_compute. reflexivity.
  - rewrite H. vm_compute. reflexivity.
Defined.

(** C3 as stated fails across a sweep: a listener registers at time 0 on
    a store with a TTL of 60 s, the sweep runs at 60001 ms and deletes the
    session with its listener set, and the [addLog] that follows creates a
    new buffer and calls nobody, although the handle of the listener was
    never called. *)
Lemma addLog_misses_listener_after_sweep :
  let st1 := (subscribe 0 "s1" 7 store2).1.1 in
  let h := (subscribe 0 "s1" 7 store2).1.2 in
  let ops := [OpCleanup 60001] in
  received 7 (subscribe 0 "s1" 7 store2).2 = []
  ∧ (h ∉ unsubscribed ops)
  ∧ (addLog 60002 "s1" logA (run ops st1).1).2 = []
  ∧ (7, logA) ∉ (addLog 60002 "s1" logA (run ops st1).1).2.
Proof.
  intros st1 h ops.
  assert (Hcalls : (addLog 60002 "s1" logA (run ops st1).1).2 = []) by by vm_compute.
  split_and!.
  - by vm_compute.
  - cbn. apply not_elem_of_nil.
  - exact Hcalls.
  - rewrite Hcalls. apply not_elem_of_nil.
Qed.

(** ** [getBufferedLogs] *)

(** C4, as amended: [getBufferedLogs] returns the records of the buffer
    of the session, the empty sequence for an unknown session, calls no
    listener and changes nothing in the store: the listener set and the
    last-access time of every session stay as they were. *)
Theorem getBufferedLogs_reads_only (st : SessionStore) (now : Z) (sid : string) :
  (∀ b, session sid st = Some b → getBufferedLogs sid st = logs b)
  ∧ (session sid st = None → getBufferedLogs sid st = [])
  ∧ step (OpGetBufferedLogs now sid) st = (st, [])
  ∧ (∀ sid', session sid' (step (OpGetBufferedLogs now sid) st).1 = session sid' st).
Proof.
  unfold getBufferedLogs. split_and!.
  - by intros b ->.
  - by intros ->.
  - done.
  - done.
Qed.

Lemma getBufferedLogs_reads_only_witness :
  getBufferedLogs "s1" (addLog 0 "s1" logA store2).1 = [logA]
  ∧ getBufferedLogs "unknown" (addLog 0 "s1" logA store2).1 = [].
Proof.
  destruct (getBufferedLogs_reads_only (addLog 0 "s1" logA store2).1 50000 "s1")
    as (Hknown & _).
  destruct (getBufferedLogs_reads_only (addLog 0 "s1" logA store2).1 50000 "unknown")
    as (_ & Hunknown & _).
  split.
  - apply (Hknown (mkBuffer [logA] 0 [])). vm_compute. reflexivity.
  - apply Hunknown. vm_compute. reflexivity.
Defined.

(** C4 as stated fails on the last-access time: a session written at
    time 0 and read with [getBufferedLogs] at time 50000 still has
    [lastAccess] 0. *)
Lemma getBufferedLogs_keeps_lastAccess :
  let st := (addLog 0 "s1" logA store2).1 in
  let st' := (step (OpGetBufferedLogs 50000 "s1") st).1 in
  getBufferedLogs "s1" st = [logA]
  ∧ lastAccess <$> session "s1" st' = Some 0%Z
  ∧ lastAccess <$> session "s1" st' ≠ Some 50000%Z.
Proof. by vm_compute. Qed.

(** ** The sweep *)

Lemma cleanup_session now st sid :
  session sid (cleanup now st) =
    match session sid st with
    | Some b => if expired now (ttlMs st) b then None else Some b
    | None => None
    end.
Proof.
  unfold session. rewrite cleanup_lookup. cbn [heap cleanup].
  destruct (sessions st !! sid) as [r|]; [|done]. cbn.
  destruct (heap st !! r) as [b|] eqn:Hb; cbn; [|by rewrite Hb].
  destruct (expired now (ttlMs st) b); [done|]. cbn. by rewrite Hb.
Qed.

(** C5, as amended: a session whose [lastAccess] is more than [ttlMs]
    before the clock of the sweep is absent from the store after the sweep,
    buffer and listeners; a session whose [lastAccess] is at most [ttlMs]
    before it survives unchanged; [addLog] and [subscribe] set [lastAccess]
    to the time of the call, so a session they touched at most [ttlMs]
    before the sweep survives; [getBufferedLogs] leaves [lastAccess] as it
    is and does not extend the life of a session. *)
Theorem sweep_ttl (st : SessionStore) (sid : string) (now : Z) :
  wf st →
  (∀ b, session sid st = Some b → (now - lastAccess b > ttlMs st)%Z →
        sessions (cleanup now st) !! sid = None
        ∧ session sid (cleanup now st) = None
        ∧ getBufferedLogs sid (cleanup now st) = []
        ∧ subscribers_of sid (cleanup now st) = [])
  ∧ (∀ b, session sid st = Some b → (now - lastAccess b ≤ ttlMs st)%Z →
          session sid (cleanup now st) = Some b)
  ∧ (∀ t log, (now - t ≤ ttlMs st)%Z →
       lastAccess <$> session sid (addLog t sid log st).1 = Some t
       ∧ session sid (cleanup now (addLog t sid log st).1)
         = session sid (addLog t sid log st).1)
  ∧ (∀ t cb, (now - t ≤ ttlMs st)%Z →
       lastAccess <$> session sid (subscribe t sid cb st).1.1 = Some t
       ∧ session sid (cleanup now (subscribe t sid cb st).1.1)
         = session sid (subscribe t sid cb st).1.1)
  ∧ (∀ t, cleanup now (step (OpGetBufferedLogs t sid) st).1 = cleanup now st).
Proof.
  intros Hwf. split_and!.
  - intros b Hb Hold.
    assert (Hs : session sid (cleanup now st) = None).
    { rewrite cleanup_session, Hb. unfold expired. by rewrite bool_decide_eq_true_2. }
    split_and!; [|done|unfold getBufferedLogs; by rewrite Hs
                 |unfold subscribers_of; by rewrite Hs].
    rewrite cleanup_lookup. unfold session in Hb.
    destruct (sessions st !! sid) as [r|]; [|done]. cbn in Hb. rewrite Hb.
    unfold expired. by rewrite bool_decide_eq_true_2.
  - intros b Hb Hyoung. rewrite cleanup_session, Hb. unfold expired.
    rewrite bool_decide_eq_false_2; [done|lia].
  - intros t log Ht.
    destruct (addLog_spec t sid log st Hwf) as (_ & Hs & _ & _ & Httl).
    rewrite cleanup_session, Hs, Httl. unfold expired. cbn.
    rewrite bool_decide_eq_false_2; [done|lia].
  - intros t cb Ht.
    destruct (subscribe_spec t sid cb st Hwf) as (_ & _ & _ & Hs & _ & _ & Httl).
    rewrite cleanup_session, Hs, Httl. unfold expired. cbn.
    rewrite bool_decide_eq_false_2; [done|lia].
  - done.
Qed.

Lemma sweep_ttl_witness :
  session "s1" (cleanup 60001 (addLog 0 "s1" logA store2).1) = None
  ∧ is_Some (session "s1" (cleanup 60001 (addLog 1 "s1" logA store2).1)).
Proof.
  split.
  - destruct (sweep_ttl (addLog 0 "s1" logA store2).1 "s1" 60001) as (H & _).
    + apply (wf_step (OpAddLog 0 "s1" logA)), wf_new.
    + destruct (H (mkBuffer [logA] 0 [])) as (_ & Hs & _).
      * vm_compute. reflexivity.
      * vm_compute. reflexivity.
      * exact Hs.
  - destruct (sweep_ttl store2 "s1" 60001) as (_ & _ & H & _).
    + apply wf_new.
    + destruct (H 1%Z logA) as [_ Hs].
      * vm_compute. discriminate.
      * rewrite Hs. vm_compute. eauto.
Defined.

(** C5 as stated fails for [getBufferedLogs]: a session written at time
    0 and read with [getBufferedLogs] at time 50000, within a TTL of 60 s
    of the sweep at 60001, is deleted by that sweep. *)
Lemma sweep_deletes_session_read_within_ttl :
  let ops := [OpAddLog 0 "s1" logA; OpGetBufferedLogs 50000 "s1"; OpCleanup 60001] in
  ttlMs store2 = 60000%Z
  ∧ (60001 - 50000 ≤ ttlMs store2)%Z
  ∧ getBufferedLogs "s1" (run (take 2 ops) store2).1 = [logA]
  ∧ session "s1" (run ops store2).1 = None.
Proof. vm_compute. split_and!; [done| |done|done]. intros H. discriminate H. Qed.

(** The expiry scenario: one [addLog] creates the session, the sweep runs
    after the TTL, the buffer is gone, and a new [addLog] starts a buffer
    of length 1. *)
Example scenario_expiry :
  let st := (run [OpAddLog 0 "s2" logA; OpCleanup 60001] store2).1 in
  getBufferedLogs "s2" st = []
  ∧ getBufferedLogs "s2" (addLog 60002 "s2" logB st).1 = [logB].
Proof. by vm_compute. Qed.

(** * Properties of the interceptor *)

Lemma append_cons c (a b : string) : String c a +:+ b = String c (a +:+ b).
Proof. reflexivity. Qed.

Lemma prefix_spec (p : string) : ∀ s, String.prefix p s = true ↔ ∃ b, s = p +:+ b.
Proof.
  induction p as [|a p IH]; intros s.
  - split; [intros _; by exists s|intros _; by destruct s].
  - destruct s as [|c s]; cbn [String.prefix].
    + split; [done|]. intros [b Hb]. by rewrite append_cons in Hb.
    + destruct (Ascii.ascii_dec a c) as [->|Hne].
      * rewrite IH. split; intros [b Hb]; exists b; rewrite append_cons in *; congruence.
      * split; [done|]. intros [b Hb]. rewrite append_cons in Hb. congruence.
Qed.

(** [includes] is the substring test. *)
Lemma includes_spec (pat : string) : ∀ s,
  includes s pat = true ↔ ∃ a b, s = a +:+ pat +:+ b.
Proof.
  induction s as [|c s IH]; cbn [includes]; rewrite orb_true_iff, prefix_spec.
  - split.
    + intros [[b Hb]|?]; [|done]. by exists "", b.
    + intros (a & b & Hab). left. destruct a; [by exists b|].
      by rewrite append_cons in Hab.
  - rewrite IH. split.
    + intros [[b Hb]|(a & b & Hab)]; [by exists "", b|].
      exists (String c a), b. by rewrite append_cons, Hab.
    + intros (a & b & Hab). destruct a as [|c' a]; [left; by exists b|].
      right. exists a, b. rewrite append_cons in Hab. congruence.
Qed.

(** C6, as amended: when a session identifier is resolved (a cookie
    value other than the empty string), the URL of the call does not
    contain [/__netview/], the
    wrapped fetch rejects, and the clock does not step back between the
    start of the call and its settlement, the interceptor rejects with the
    same value and makes exactly one [addLog] call, for that session, with a
    record of status 0, status text [Error], no response headers, a null
    response body, the message text of the error and a duration of at least
    0; the buffer of the session gains that record. *)
Theorem netviewFetch_records_rejection
    (originalFetch : RequestInfo → option RequestInit → Settled) (cookies : Cookies)
    (rid : string) (startTime endTime now : Z) (input : RequestInfo)
    (init : option RequestInit) (store : SessionStore) (sid : string) (e : Thrown) :
  getSessionId cookies = Some sid →
  sid ≠ "" →
  includes (url_of input) "/__netview/" = false →
  originalFetch input init = Rejected e →
  (startTime ≤ endTime)%Z →
  ∃ log,
    netviewFetch originalFetch cookies rid startTime endTime now input init store
      = (Rejected e, (addLog now sid log store).1, (addLog now sid log store).2)
    ∧ status log = 0%Z
    ∧ statusText log = "Error"
    ∧ responseHeaders log = ∅
    ∧ responseBody log = None
    ∧ error log = Some (error_text e)
    ∧ (0 ≤ duration log)%Z
    ∧ (wf store →
       getBufferedLogs sid
         (netviewFetch originalFetch cookies rid startTime endTime now input init store).1.2
       = evict (maxLogsPerSession store) (getBufferedLogs sid store) ++ [log]).
Proof.
  intros Hsid Hne Hurl Hrej Hclock. unfold netviewFetch.
  rewrite Hsid, bool_decide_eq_false_2, Hurl, Hrej by done.
  match goal with |- context [addLog now sid ?l store] => exists l end.
  match goal with |- context [addLog now sid ?l store] =>
    pose proof (addLog_spec now sid l store) as Hspec;
    destruct (addLog now sid l store) as [store' calls] end.
  cbn. split_and!; try done; [lia|].
  intros Hwf. destruct (Hspec Hwf) as (_ & Hs & _).
  cbn [fst snd] in *. unfold getBufferedLogs at 1. by rewrite Hs.
Qed.

Lemma netviewFetch_records_rejection_witness :
  (status <$> getBufferedLogs "abc"
     (netviewFetch (failingFetch (ErrorObject "fetch failed")) cookiesAbc "id1" 10 12 12
        (InputString "http://api.test/x") None store2).1.2)
  = [0%Z].
Proof.
  destruct (netviewFetch_records_rejection (failingFetch (ErrorObject "fetch failed"))
              cookiesAbc "id1" 10 12 12 (InputString "http://api.test/x") None store2
              "abc" (ErrorObject "fetch failed"))
    as (log & _ & Hstatus & _ & _ & _ & _ & _ & Hbuf).
  - vm_compute. reflexivity.
  - discriminate.
  - vm_compute. reflexivity.
  - reflexivity.
  - lia.
  - rewrite Hbuf by apply wf_new. vm_compute evict. cbn. by rewrite Hstatus.
Defined.

(** C6 as stated fails in two places.  A call to a URL that contains
    [/__netview/] is passed through: its rejection reaches the caller and no
    record is added.  And the duration is the difference of two readings of
    the wall clock: when the clock steps back in between, it is negative. *)
Lemma netviewFetch_rejection_unrecorded :
  getSessionId cookiesAbc = Some "abc"
  ∧ netviewFetch (failingFetch (ErrorObject "fetch failed")) cookiesAbc "id1" 10 12 12
      (InputString "http://localhost:3000/api/__netview/stream?session=abc") None store2
    = (Rejected (ErrorObject "fetch failed"), store2, [])
  ∧ getBufferedLogs "abc" store2 = []
  ∧ (duration <$> getBufferedLogs "abc"
       (netviewFetch (failingFetch (ErrorObject "fetch failed")) cookiesAbc "id1" 12 10 12
          (InputString "http://api.test/x") None store2).1.2)
    = [(-2)%Z].
Proof. by vm_compute. Qed.

(** C7: when session resolution yields no identifier, which is what it
    yields when [cookies()] throws or the cookie is absent (an empty cookie
    value counts as none), the wrapped fetch returns what the primitive
    returns for the same arguments, resolved or rejected, leaves the store
    as it is, so no buffer gains a record, and calls no listener. *)
Theorem netviewFetch_passthrough_without_session
    (originalFetch : RequestInfo → option RequestInit → Settled) (cookies : Cookies)
    (rid : string) (startTime endTime now : Z) (input : RequestInfo)
    (init : option RequestInit) (store : SessionStore) :
  getSessionId CookiesUnavailable = None
  ∧ (getSessionId cookies = None ∨ getSessionId cookies = Some "" →
     netviewFetch originalFetch cookies rid startTime endTime now input init store
     = (originalFetch input init, store, [])
     ∧ ∀ sid, getBufferedLogs sid
                (netviewFetch originalFetch cookies rid startTime endTime now
                   input init store).1.2
              = getBufferedLogs sid store).
Proof.
  split; [done|]. intros [H|H]; unfold netviewFetch; by rewrite H.
Qed.

Lemma netviewFetch_passthrough_without_session_witness :
  netviewFetch (failingFetch (OtherValue "boom")) CookiesUnavailable "id1" 10 12 12
    (InputString "http://api.test/x") None store2
  = (Rejected (OtherValue "boom"), store2, [])
  ∧ netviewFetch okFetch (CookieStore ∅) "id1" 10 12 12
      (InputString "http://api.test/x") None store2
    = (okFetch (InputString "http://api.test/x") None, store2, []).
Proof.
  split.
  - apply (netviewFetch_passthrough_without_session
             (failingFetch (OtherValue "boom")) CookiesUnavailable "id1" 10 12 12
             (InputString "http://api.test/x") None store2). left. reflexivity.
  - apply (netviewFetch_passthrough_without_session okFetch (CookieStore ∅) "id1"
             10 12 12 (InputString "http://api.test/x") None store2).
    left. reflexivity.
Defined.

(** C8, as amended: for every intercepted call (a non-empty session
    identifier is resolved and the URL does not contain [/__netview/]) one
    record is handed to [addLog], whose request body snapshot is the raw
    string when the body is a non-empty string, the fixed text [[FormData]]
    when the body is a [FormData], the stringified parameters when it is a
    [URLSearchParams], the text [[Binary Data]] for any other body, and null
    when there is no body or the body is the empty string. *)
Theorem netviewFetch_requestBody_snapshot
    (originalFetch : RequestInfo → option RequestInit → Settled) (cookies : Cookies)
    (rid : string) (startTime endTime now : Z) (input : RequestInfo)
    (init : option RequestInit) (store : SessionStore) (sid : string) :
  getSessionId cookies = Some sid →
  sid ≠ "" →
  includes (url_of input) "/__netview/" = false →
  ∃ log,
    netviewFetch originalFetch cookies rid startTime endTime now input init store
      = (originalFetch input init, (addLog now sid log store).1, (addLog now sid log store).2)
    ∧ (∀ s, init ≫= init_body = Some (BodyString s) → s ≠ "" → requestBody log = Some s)
    ∧ (∀ entries, init ≫= init_body = Some (BodyFormData entries) →
         requestBody log = Some "[FormData]")
    ∧ (∀ text, init ≫= init_body = Some (BodyURLSearchParams text) →
         requestBody log = Some text)
    ∧ (init ≫= init_body = Some BodyOther → requestBody log = Some "[Binary Data]")
    ∧ (init ≫= init_body = None ∨ init ≫= init_body = Some (BodyString "") →
         requestBody log = None).
Proof.
  intros Hsid Hne Hurl. unfold netviewFetch.
  rewrite Hsid, bool_decide_eq_false_2, Hurl by done.
  assert (Hbody :
    (∀ s, init ≫= init_body = Some (BodyString s) → s ≠ "" → requestBody_of init = Some s)
    ∧ (∀ entries, init ≫= init_body = Some (BodyFormData entries) →
         requestBody_of init = Some "[FormData]")
    ∧ (∀ text, init ≫= init_body = Some (BodyURLSearchParams text) →
         requestBody_of init = Some text)
    ∧ (init ≫= init_body = Some BodyOther → requestBody_of init = Some "[Binary Data]")
    ∧ (init ≫= init_body = None ∨ init ≫= init_body = Some (BodyString "") →
         requestBody_of init = None)).
  { unfold requestBody_of. split_and!.
    - intros s -> Hs. by rewrite bool_decide_eq_false_2.
    - by intros entries ->.
    - by intros text ->.
    - by intros ->.
    - by intros [-> | ->]. }
  destruct (originalFetch input init) as [response|e].
  - match goal with |- context [addLog now sid ?l store] => exists l end.
    split; [|exact Hbody].
    match goal with |- context [addLog now sid ?l store] =>
      by destruct (addLog now sid l store) end.
  - match goal with |- context [addLog now sid ?l store] => exists l end.
    split; [|exact Hbody].
    match goal with |- context [addLog now sid ?l store] =>
      by destruct (addLog now sid l store) end.
Qed.

Lemma netviewFetch_requestBody_snapshot_witness :
  ∃ log,
    netviewFetch okFetch cookiesAbc "id1" 10 12 12 (InputString "http://api.test/x")
      (Some (mkInit (Some "POST") None (Some (BodyString "{}")))) store2
    = (okFetch (InputString "http://api.test/x")
         (Some (mkInit (Some "POST") None (Some (BodyString "{}")))),
       (addLog 12 "abc" log store2).1, (addLog 12 "abc" log store2).2)
    ∧ requestBody log = Some "{}".
Proof.
  destruct (netviewFetch_requestBody_snapshot okFetch cookiesAbc "id1" 10 12 12
              (InputString "http://api.test/x")
              (Some (mkInit (Some "POST") None (Some (BodyString "{}")))) store2 "abc")
    as (log & Hrun & Hstr & _).
  - vm_compute. reflexivity.
  - discriminate.
  - vm_compute. reflexivity.
  - exists log. split; [exact Hrun|]. apply Hstr; [reflexivity|discriminate].
Defined.

(** C8 as stated fails for form data and for the empty string: a
    [FormData] body with the entries [a=1], [b=2] is recorded as the text
    [[FormData]], not as the lines [a: 1] and [b: 2]; an empty string body
    is recorded as null. *)
Lemma netviewFetch_formdata_not_serialized :
  let form := [("a", "1"); ("b", "2")] in
  let run body :=
    requestBody <$> getBufferedLogs "abc"
      (netviewFetch okFetch cookiesAbc "id1" 10 12 12 (InputString "http://api.test/x")
         (Some (mkInit (Some "POST") None (Some body))) store2).1.2 in
  formDataLines form = "a: 1" +:+ String (Ascii.ascii_of_nat 10) "b: 2"
  ∧ run (BodyFormData form) = [Some "[FormData]"]
  ∧ run (BodyFormData form) ≠ [Some (formDataLines form)]
  ∧ run (BodyString "") = [None]
  ∧ run (BodyString "") ≠ [Some ""].
Proof. by vm_compute. Qed.

(** * Properties of the streaming endpoint *)

(** C9: a request that carries a session parameter while the store was
    never initialized gets a stream with the connection comment, exactly one
    message, which is an object with an [error] field, and the stream is
    closed after it; the handler returns normally and registers nothing.
    With an initialized store, a session identifier the store does not know
    gets a stream with the connection comment only (an empty backlog), left
    open, with the listener of the connection registered on the session:
    every later [addLog] to the session calls it. *)
Theorem GET_without_store (sid : string) (send_id : nat) (now : Z) :
  sid ≠ "" →
  GET (Some sid) send_id now None
    = Returns
        (StreamResponse
           {| frames := [Comment "connected"; Data (ErrorPayload "NetView not initialized")];
              closed := true;
              unsubscribe_handle := None |},
         None)
  ∧ is_Some (Client.decode (ErrorPayload "NetView not initialized") !! "error")
  ∧ ∀ store, wf store → session sid store = None →
      ∃ store' h,
        GET (Some sid) send_id now (Some store)
          = Returns
              (StreamResponse
                 {| frames := [Comment "connected"];
                    closed := false;
                    unsubscribe_handle := Some h |},
               Some store')
        ∧ getBufferedLogs sid store' = []
        ∧ ∀ t log, (send_id, log) ∈ (addLog t sid log store').2.
Proof.
  intros Hne. unfold GET. rewrite bool_decide_eq_false_2 by done. cbn [getStore].
  split_and!; [done|by eexists|].
  intros store Hwf Hnone.
  destruct (subscribe_spec now sid send_id store Hwf) as (Hwf' & _ & _ & Hs & Hcalls & _).
  assert (Hlogs : getBufferedLogs sid store = []).
  { unfold getBufferedLogs. by rewrite Hnone. }
  destruct (subscribe now sid send_id store) as [[store' h] calls].
  cbn [fst snd] in *. rewrite Hlogs in Hcalls, Hs. subst calls.
  exists store', h. split_and!; [done|unfold getBufferedLogs; by rewrite Hs|].
  intros t log. destruct (addLog_spec t sid log store' Hwf') as (_ & _ & -> & _).
  unfold subscribers_of. rewrite Hs. cbn [subscribers].
  apply (list_elem_of_fmap_2 (λ c, (c, log))), elem_of_set_add_new.
Qed.

Lemma GET_without_store_witness :
  GET (Some "abc") 7 0 None
    = Returns
        (StreamResponse
           {| frames := [Comment "connected"; Data (ErrorPayload "NetView not initialized")];
              closed := true;
              unsubscribe_handle := None |},
         None).
Proof. apply (GET_without_store "abc" 7 0). discriminate. Defined.

(** * Properties of the client aggregator *)

(** The records of a failed call (with an [error] field) whose frame the
    client discards: those with a non-empty message. *)
Lemma decode_error_field (l : ServerFetchLog) :
  Client.get (Client.decode (LogPayload l)) "error"
  = match error l with
    | Some msg => Client.JStr msg
    | None => Client.JUndefined
    end.
Proof.
  unfold Client.get, Client.decode. destruct (error l) as [msg|].
  - by rewrite lookup_insert_eq.
  - by vm_compute.
Qed.

(** C10, as amended: a message of the stream either leaves the merged
    collection as it is or appends exactly one record, of origin [server]
    and state [completed], never [error]; a decoded frame whose [error]
    field is truthy is discarded, so the record of a failed server-side call
    with a non-empty error message is never appended; and over any sequence
    of messages, if the server-origin records of the collection were all
    [completed] they still are. *)
Theorem onmessage_appends_completed_only
    (data : option (gmap string Client.JsVal)) (requests : list Client.NetworkRequest) :
  (Client.onmessage data requests = requests
   ∨ ∃ r, Client.onmessage data requests = requests ++ [r]
          ∧ Client.source r = Client.SourceServer
          ∧ Client.state r = Client.StateCompleted
          ∧ Client.state r ≠ Client.StateError)
  ∧ (∀ log, data = Some log → Client.truthy (Client.get log "error") = true →
       Client.onmessage data requests = requests)
  ∧ (∀ l msg, error l = Some msg → msg ≠ "" →
       Client.onmessage (Some (Client.decode (LogPayload l))) requests = requests)
  ∧ (∀ datas, server_completed requests →
       server_completed (foldl (λ rs d, Client.onmessage d rs) requests datas)).
Proof.
  assert (Hone : ∀ d rs,
    Client.onmessage d rs = rs
    ∨ ∃ r, Client.onmessage d rs = rs ++ [r]
           ∧ Client.source r = Client.SourceServer
           ∧ Client.state r = Client.StateCompleted
           ∧ Client.state r ≠ Client.StateError).
  { intros [log|] rs; cbn [Client.onmessage]; [|by left].
    destruct (Client.truthy (Client.get log "error")) eqn:Herr; [by left|].
    right. eexists. split; [done|]. by cbn. }
  split_and!.
  - apply Hone.
  - intros log -> Herr. cbn [Client.onmessage]. by rewrite Herr.
  - intros l msg Hmsg Hne. cbn [Client.onmessage].
    rewrite decode_error_field, Hmsg. cbn [Client.truthy].
    by rewrite bool_decide_eq_false_2.
  - intros datas. revert requests. induction datas as [|d datas IH]; intros rs Hrs; [done|].
    cbn [foldl]. apply IH.
    destruct (Hone d rs) as [->|(r & -> & Hsrc & Hst & _)]; [done|].
    apply Forall_app. split; [done|]. by apply Forall_singleton.
Qed.

Lemma onmessage_appends_completed_only_witness :
  Client.onmessage
    (Some (Client.decode
             (LogPayload
                {| id := "id1"; sessionId := "abc"; timestamp := 10; method := "GET";
                   url := "http://api.test/x"; requestHeaders := ∅; requestBody := None;
                   status := 0; statusText := "Error"; responseHeaders := ∅;
                   responseBody := None; duration := 2;
                   error := Some "fetch failed" |}))) []
  = [].
Proof.
  destruct (onmessage_appends_completed_only None []) as (_ & _ & H & _).
  apply (H _ "fetch failed"); [reflexivity|discriminate].
Defined.

(** C10 as stated fails for an empty error message: the record of a call
    that failed with [new Error()] has the [error] field [""], which is not
    truthy, so its frame is not discarded and the record is appended, with
    state [completed]. *)
Lemma failed_call_with_empty_message_is_appended :
  let store' :=
    (netviewFetch (failingFetch (ErrorObject "")) cookiesAbc "id1" 10 12 12
       (InputString "http://api.test/x") None store2).1.2 in
  ∃ l r,
    getBufferedLogs "abc" store' = [l]
    ∧ error l = Some ""
    ∧ status l = 0%Z
    ∧ Client.decode (LogPayload l) !! "error" = Some (Client.JStr "")
    ∧ Client.onmessage (Some (Client.decode (LogPayload l))) [] = [r]
    ∧ Client.source r = Client.SourceServer
    ∧ Client.state r = Client.StateCompleted.
Proof.
  intros store'.
  exists {| id := "id1"; sessionId := "abc"; timestamp := 10; method := "GET";
            url := "http://api.test/x"; requestHeaders := ∅; requestBody := None;
            status := 0; statusText := "Error"; responseHeaders := ∅;
            responseBody := None; duration := 2; error := Some "" |}.
  eexists. split_and!.
  - by vm_compute.
  - done.
  - done.
  - cbn [Client.decode error]. apply lookup_insert_eq.
  - unfold Client.onmessage. rewrite decode_error_field. cbn [error Client.truthy].
    rewrite bool_decide_eq_true_2 by done. cbn [negb app]. reflexivity.
  - done.
  - done.
Qed.

(** * Further properties of the store *)

(** ** Invariants of the buffer objects *)

Lemma getOrCreateSession_config now sid st :
  maxLogsPerSession (getOrCreateSession now sid st).1 = maxLogsPerSession st
  ∧ ttlMs (getOrCreateSession now sid st).1 = ttlMs st.
Proof. unfold getOrCreateSession. by destruct (sessions st !! sid). Qed.

Section buffers.
Context (P : SessionBuffer → Prop) (max : Z).
Hypothesis P_new : ∀ now, P {| logs := []; lastAccess := now; subscribers := [] |}.
Hypothesis P_touch : ∀ now b, P b → P (touch now b).
Hypothesis P_push : ∀ log b, P b → P (push max log b).
Hypothesis P_add : ∀ cb b, P b → P (with_subscribers (set_add cb) b).
Hypothesis P_delete : ∀ cb b, P b → P (with_subscribers (set_delete cb) b).

Lemma getOrCreateSession_all_buffers now sid st :
  all_buffers P st → all_buffers P (getOrCreateSession now sid st).1.
Proof.
  intros Hall r b. unfold getOrCreateSession.
  destruct (sessions st !! sid) as [r0|]; cbn.
  - rewrite lookup_alter. case_decide; [|by apply Hall]. subst r0.
    destruct (heap st !! r) as [b0|] eqn:Hb0; [|done].
    intros [= <-]. eapply P_touch, Hall, Hb0.
  - rewrite lookup_insert. case_decide; [|by apply Hall]. intros [= <-]. apply P_new.
Qed.

Lemma step_all_buffers op st :
  maxLogsPerSession st = max →
  all_buffers P st → all_buffers P (step op st).1.
Proof.
  intros Hmax Hall. destruct op as [now sid log|now sid cb|[r0 c]|now sid|now]; cbn [step].
  - pose proof (getOrCreateSession_all_buffers now sid st Hall) as H1.
    pose proof (getOrCreateSession_config now sid st) as [Hm _].
    unfold addLog. destruct (getOrCreateSession now sid st) as [st1 r1]. cbn [fst] in *.
    destruct (heap st1 !! r1) as [b1|] eqn:Hb1; [|done].
    intros r b. cbn. rewrite lookup_insert. case_decide; [|by apply H1].
    intros [= <-]. rewrite Hm, Hmax. eapply (P_push log b1), H1, Hb1.
  - pose proof (getOrCreateSession_all_buffers now sid st Hall) as H1.
    unfold subscribe. destruct (getOrCreateSession now sid st) as [st1 r1]. cbn [fst] in *.
    destruct (heap st1 !! r1) as [b1|] eqn:Hb1; [|done].
    intros r b. cbn. rewrite lookup_insert. case_decide; [|by apply H1].
    intros [= <-]. eapply (P_add cb b1), H1, Hb1.
  - intros r b. cbn. rewrite lookup_alter. case_decide; [|by apply Hall]. subst r0.
    destruct (heap st !! r) as [b0|] eqn:Hb0; [|done].
    intros [= <-]. eapply (P_delete c b0), Hall, Hb0.
  - done.
  - done.
Qed.

Lemma run_all_buffers ops : ∀ st,
  maxLogsPerSession st = max →
  all_buffers P st → all_buffers P (run ops st).1.
Proof.
  induction ops as [|op ops IH]; intros st Hmax Hall; [done|].
  rewrite run_cons. cbn [fst]. apply IH.
  - by destruct (step_config op st) as [-> _].
  - by apply step_all_buffers.
Qed.

End buffers.

Lemma all_buffers_new P options : all_buffers P (new_SessionStore options).
Proof. intros r b H. cbn in H. by rewrite lookup_empty in H. Qed.

Lemma all_buffers_session P st sid b :
  all_buffers P st → session sid st = Some b → P b.
Proof.
  intros Hall. unfold session. destruct (sessions st !! sid) as [r|]; [|done].
  cbn. apply Hall.
Qed.

(** X1: in every store reached from a new one by any operations, whatever
    their order and their sessions, no buffer is longer than a configured
    [maxLogsPerSession] of at least 1. *)
Theorem buffers_bounded_in_reachable_stores (options : NetViewOptions) (ops : list Op)
    (sid : string) :
  (1 ≤ maxLogsPerSession (new_SessionStore options))%Z →
  (Z.of_nat (length (getBufferedLogs sid (run ops (new_SessionStore options)).1))
   ≤ maxLogsPerSession (new_SessionStore options))%Z.
Proof.
  intros Hmax.
  set (max := maxLogsPerSession (new_SessionStore options)) in *.
  assert (Hall : all_buffers (λ b, (Z.of_nat (length (logs b)) ≤ max)%Z)
                   (run ops (new_SessionStore options)).1).
  { apply (run_all_buffers _ max).
    - intros now. cbn [logs length]. lia.
    - intros now b Hb. exact Hb.
    - intros log b Hb. cbn [push logs]. unfold evict.
      rewrite length_app. cbn [length].
      case_bool_decide; [rewrite length_drop|]; lia.
    - intros cb b Hb. exact Hb.
    - intros cb b Hb. exact Hb.
    - done.
    - apply all_buffers_new. }
  unfold getBufferedLogs.
  destruct (session sid _) as [b|] eqn:Hs; [|cbn [length]; lia].
  apply (all_buffers_session _ _ _ _ Hall Hs).
Qed.

Lemma buffers_bounded_in_reachable_stores_witness :
  (Z.of_nat (length (getBufferedLogs "s1"
     (run [OpAddLog 1 "s1" logA; OpSubscribe 2 "s2" 7; OpAddLog 3 "s1" logB;
           OpAddLog 4 "s2" logA; OpAddLog 5 "s1" logC]
        (new_SessionStore (mkOptions (Some 2%Z) None None))).1)) ≤ 2)%Z.
Proof.
  apply (buffers_bounded_in_reachable_stores (mkOptions (Some 2%Z) None None)).
  cbn. lia.
Defined.

Lemma NoDup_set_add cb l : NoDup l → NoDup (set_add cb l).
Proof.
  intros Hl. unfold set_add. case_decide as Hin; [done|].
  apply NoDup_app. split_and!; [done| |apply NoDup_singleton].
  intros x Hx Hx'. apply list_elem_of_singleton in Hx'. by subst.
Qed.

(** X2: the listener set is a set.  In every store reached from a new one,
    an [addLog] calls each listener of the session once, also a listener
    that was registered several times. *)
Theorem addLog_calls_each_listener_once (options : NetViewOptions) (ops : list Op)
    (now : Z) (sid : string) (log : ServerFetchLog) :
  let st := (run ops (new_SessionStore options)).1 in
  NoDup (subscribers_of sid st)
  ∧ (addLog now sid log st).2 = map (λ c, (c, log)) (subscribers_of sid st)
  ∧ NoDup (addLog now sid log st).2.
Proof.
  intros st.
  assert (Hwf : wf st) by apply wf_run, wf_new.
  assert (Hall : all_buffers (λ b, NoDup (subscribers b)) st).
  { apply (run_all_buffers _ (maxLogsPerSession (new_SessionStore options))).
    - intros now0. apply NoDup_nil_2.
    - intros now0 b Hb. exact Hb.
    - intros log0 b Hb. exact Hb.
    - intros cb b. apply NoDup_set_add.
    - intros cb b. apply NoDup_filter.
    - done.
    - apply all_buffers_new. }
  assert (Hnd : NoDup (subscribers_of sid st)).
  { unfold subscribers_of. destruct (session sid st) as [b|] eqn:Hs; [|apply NoDup_nil_2].
    apply (all_buffers_session _ _ _ _ Hall Hs). }
  destruct (addLog_spec now sid log st Hwf) as (_ & _ & Hcalls & _).
  split_and!; [done|done|]. rewrite Hcalls.
  apply (NoDup_fmap_2 (λ c, (c, log))). exact Hnd.
Qed.

(** ** Sessions do not share buffers *)

Lemma inj_new options : inj_sessions (new_SessionStore options).
Proof. intros s1 s2 r H. cbn in H. by rewrite lookup_empty in H. Qed.

Lemma getOrCreateSession_inj now sid st :
  wf st → inj_sessions st → inj_sessions (getOrCreateSession now sid st).1.
Proof.
  intros Hwf Hinj. unfold getOrCreateSession.
  destruct (sessions st !! sid) as [r0|] eqn:Hs; cbn; [done|].
  assert (Hfresh : ∀ s, sessions st !! s ≠ Some (fresh (dom (heap st)))).
  { intros s Hs'. destruct (Hwf _ _ Hs') as [b Hb].
    apply (is_fresh (dom (heap st))), elem_of_dom. eauto. }
  intros s1 s2 r. cbn. rewrite !lookup_insert.
  repeat case_decide; subst; try done.
  - intros [= <-] H2. by destruct (Hfresh s2).
  - intros H1 [= <-]. by destruct (Hfresh s1).
  - apply Hinj.
Qed.

Lemma getOrCreateSession_other now sid sid' st :
  wf st → inj_sessions st → sid ≠ sid' →
  session sid' (getOrCreateSession now sid st).1 = session sid' st.
Proof.
  intros Hwf Hinj Hne. unfold session, getOrCreateSession.
  destruct (sessions st !! sid) as [r0|] eqn:Hs; cbn.
  - destruct (sessions st !! sid') as [r'|] eqn:Hs'; [|done]. cbn.
    rewrite lookup_alter. case_decide; [|done]. subst r'.
    by destruct (Hne (Hinj _ _ _ Hs Hs')).
  - rewrite lookup_insert_ne by done.
    destruct (sessions st !! sid') as [r'|] eqn:Hs'; [|done]. cbn.
    rewrite lookup_insert_ne; [done|]. intros <-.
    destruct (Hwf _ _ Hs') as [b Hb].
    apply (is_fresh (dom (heap st))), elem_of_dom. eauto.
Qed.

Lemma session_set_heap_insert_other st sid sid' r b :
  inj_sessions st → sessions st !! sid = Some r → sid ≠ sid' →
  session sid' (set_heap (<[r := b]> (heap st)) st) = session sid' st.
Proof.
  intros Hinj Hs Hne. unfold session. cbn.
  destruct (sessions st !! sid') as [r'|] eqn:Hs'; [|done]. cbn.
  rewrite lookup_insert_ne; [done|]. intros <-. by destruct (Hne (Hinj _ _ _ Hs Hs')).
Qed.

Lemma addLog_other now sid sid' log st :
  wf st → inj_sessions st → sid ≠ sid' →
  session sid' (addLog now sid log st).1 = session sid' st.
Proof.
  intros Hwf Hinj Hne.
  pose proof (getOrCreateSession_other now sid sid' st Hwf Hinj Hne) as Hother.
  pose proof (getOrCreateSession_inj now sid st Hwf Hinj) as Hinj1.
  unfold addLog. destruct (getOrCreateSession now sid st) as [st1 r] eqn:Hg.
  destruct (getOrCreateSession_spec _ _ _ _ _ Hwf Hg) as (_ & Hs1 & Hh1 & _).
  cbn [fst] in *. rewrite Hh1. cbn [fst].
  by rewrite (session_set_heap_insert_other st1 sid sid').
Qed.

Lemma subscribe_other now sid sid' cb st :
  wf st → inj_sessions st → sid ≠ sid' →
  session sid' (subscribe now sid cb st).1.1 = session sid' st.
Proof.
  intros Hwf Hinj Hne.
  pose proof (getOrCreateSession_other now sid sid' st Hwf Hinj Hne) as Hother.
  pose proof (getOrCreateSession_inj now sid st Hwf Hinj) as Hinj1.
  unfold subscribe. destruct (getOrCreateSession now sid st) as [st1 r] eqn:Hg.
  destruct (getOrCreateSession_spec _ _ _ _ _ Hwf Hg) as (_ & Hs1 & Hh1 & _).
  cbn [fst] in *. rewrite Hh1. cbn [fst].
  by rewrite (session_set_heap_insert_other st1 sid sid').
Qed.

Lemma inj_set_heap h st : inj_sessions st → inj_sessions (set_heap h st).
Proof. done. Qed.

Lemma inj_step op st : wf st → inj_sessions st → inj_sessions (step op st).1.
Proof.
  intros Hwf Hinj. destruct op as [now sid log|now sid cb|h|now sid|now]; cbn [step].
  - pose proof (getOrCreateSession_inj now sid st Hwf Hinj) as H1.
    unfold addLog. destruct (getOrCreateSession now sid st) as [st1 r].
    by destruct (heap st1 !! r).
  - pose proof (getOrCreateSession_inj now sid st Hwf Hinj) as H1.
    unfold subscribe. destruct (getOrCreateSession now sid st) as [st1 r].
    by destruct (heap st1 !! r).
  - done.
  - done.
  - intros s1 s2 r. cbn [fst]. rewrite !cleanup_lookup.
    destruct (sessions st !! s1) as [r1|] eqn:H1; [|done].
    destruct (sessions st !! s2) as [r2|] eqn:H2; [|by destruct (heap st !! r1) as [[]|]; repeat case_match].
    intros Hr1 Hr2. apply (Hinj s1 s2 r).
    + rewrite H1. f_equal. repeat case_match; by simplify_eq.
    + rewrite H2. f_equal. repeat case_match; by simplify_eq.
Qed.

Lemma inj_run ops : ∀ st, wf st → inj_sessions st → inj_sessions (run ops st).1.
Proof.
  induction ops as [|op ops IH]; intros st Hwf Hinj; [done|].
  rewrite run_cons. cbn [fst]. apply IH; [by apply wf_step|by apply inj_step].
Qed.

(** X3: sessions are independent.  In every store reached from a new one,
    an [addLog] or a [subscribe] on one session leaves the buffer, the
    listeners and the last-access time of every other session as they
    were. *)
Theorem sessions_are_independent (options : NetViewOptions) (ops : list Op) (now : Z)
    (sid sid' : string) (log : ServerFetchLog) (cb : nat) :
  sid ≠ sid' →
  let st := (run ops (new_SessionStore options)).1 in
  session sid' (addLog now sid log st).1 = session sid' st
  ∧ session sid' (subscribe now sid cb st).1.1 = session sid' st.
Proof.
  intros Hne st.
  assert (Hwf : wf st) by apply wf_run, wf_new.
  assert (Hinj : inj_sessions st) by (apply inj_run; [apply wf_new|apply inj_new]).
  split; [by apply addLog_other|by apply subscribe_other].
Qed.

Lemma sessions_are_independent_witness :
  getBufferedLogs "s2"
    (addLog 9 "s1" logC
       (run [OpAddLog 1 "s1" logA; OpAddLog 2 "s2" logB]
          (new_SessionStore (mkOptions None None None))).1).1
  = [logB].
Proof.
  destruct (sessions_are_independent (mkOptions None None None)
              [OpAddLog 1 "s1" logA; OpAddLog 2 "s2" logB] 9 "s1" "s2" logC 0)
    as [H _]; [discriminate|].
  unfold getBufferedLogs. rewrite H. vm_compute. reflexivity.
Defined.

(** ** The buffer between sweeps *)

Lemma getBufferedLogs_unsubscribe h sid st :
  getBufferedLogs sid (unsubscribe h st) = getBufferedLogs sid st.
Proof.
  unfold getBufferedLogs, session, unsubscribe. cbn [sessions heap set_heap].
  destruct (sessions st !! sid) as [r|]; [|done]. cbn.
  destruct (decide (h.1 = r)) as [->|Hne].
  - rewrite lookup_alter_eq. by destruct (heap st !! r).
  - by rewrite lookup_alter_ne.
Qed.

Lemma getBufferedLogs_cleanup_kept now sid st :
  wf st →
  (is_Some (sessions st !! sid) → is_Some (sessions (cleanup now st) !! sid)) →
  getBufferedLogs sid (cleanup now st) = getBufferedLogs sid st.
Proof.
  intros Hwf Hkept. unfold getBufferedLogs. rewrite cleanup_session.
  destruct (session sid st) as [b|] eqn:Hs; [|done].
  unfold session in Hs. destruct (sessions st !! sid) as [r|] eqn:Hr; [|done].
  cbn in Hs. rewrite cleanup_lookup, Hr, Hs in Hkept.
  destruct (expired now (ttlMs st) b); [|done].
  by destruct Hkept as [? ?]; [eauto|].
Qed.

(** What one operation does to the records of a session that it does
    not remove. *)
Lemma step_logs op sid st :
  wf st → inj_sessions st →
  (is_Some (sessions st !! sid) → is_Some (sessions (step op st).1 !! sid)) →
  getBufferedLogs sid (step op st).1
  = match added sid [op] with
    | log :: _ => evict (maxLogsPerSession st) (getBufferedLogs sid st) ++ [log]
    | [] => getBufferedLogs sid st
    end.
Proof.
  intros Hwf Hinj Hkept.
  destruct op as [now s log|now s cb|h|now s|now]; unfold added; cbn [step omap list_omap].
  - case_bool_decide as Hs.
    + subst s. destruct (addLog_spec now sid log st Hwf) as (_ & Hsess & _).
      cbn. unfold getBufferedLogs at 1. by rewrite Hsess.
    + cbn. unfold getBufferedLogs. by rewrite addLog_other.
  - destruct (decide (s = sid)) as [->|Hs].
    + destruct (subscribe_spec now sid cb st Hwf) as (_ & _ & _ & Hsess & _).
      destruct (subscribe now sid cb st) as [[st' h] calls]. cbn in *.
      unfold getBufferedLogs at 1. by rewrite Hsess.
    + pose proof (subscribe_other now s sid cb st Hwf Hinj Hs) as Hother.
      destruct (subscribe now s cb st) as [[st' h] calls]. cbn in *.
      unfold getBufferedLogs. by rewrite Hother.
  - apply getBufferedLogs_unsubscribe.
  - done.
  - cbn [fst step] in *. by apply getBufferedLogs_cleanup_kept.
Qed.

Lemma added_cons op ops sid : added sid (op :: ops) = added sid [op] ++ added sid ops.
Proof.
  unfold added. cbn [omap list_omap].
  destruct op; try done. by case_bool_decide.
Qed.

Lemma run_keep sid ops : ∀ hist st,
  wf st → inj_sessions st →
  (1 ≤ maxLogsPerSession st)%Z →
  getBufferedLogs sid st = keep (Z.to_nat (maxLogsPerSession st)) hist →
  never_dropped sid ops st →
  getBufferedLogs sid (run ops st).1
  = keep (Z.to_nat (maxLogsPerSession st)) (hist ++ added sid ops).
Proof.
  induction ops as [|op ops IH]; intros hist st Hwf Hinj Hmax Hbuf Hnd.
  - cbn. by rewrite app_nil_r.
  - destruct Hnd as [Hkept Hrest]. rewrite run_cons, added_cons. cbn [fst].
    destruct (step_config op st) as [Hm _].
    pose proof (step_logs op sid st Hwf Hinj Hkept) as Hstep.
    rewrite <- Hm. rewrite app_assoc.
    apply IH; [by apply wf_step|by apply inj_step|by rewrite Hm|rewrite Hm|done].
    rewrite Hstep. destruct (added sid [op]) as [|log l] eqn:Hadd.
    + by rewrite app_nil_r.
    + assert (l = []) as ->.
      { unfold added in Hadd. cbn in Hadd.
        destruct op; try done. by case_bool_decide; simplify_eq. }
      rewrite Hbuf. rewrite <- (Z2Nat.id (maxLogsPerSession st)) at 1 by lia.
      apply evict_keep. lia.
Qed.

Lemma never_dropped_take sid ops : ∀ k st,
  never_dropped sid ops st → never_dropped sid (take k ops) st.
Proof.
  induction ops as [|op ops IH]; intros [|k] st H; try done.
  destruct H as [H1 H2]. cbn [take never_dropped]. split; [done|]. by apply IH.
Qed.

(** A sequence without a sweep removes no session. *)
Lemma never_dropped_without_sweep sid ops : ∀ st,
  (∀ now, OpCleanup now ∉ ops) → never_dropped sid ops st.
Proof.
  induction ops as [|op ops IH]; intros st Hno; [done|].
  cbn [never_dropped]. split.
  - intros [r Hr]. exists r.
    pose proof (run_keeps_session_without_sweep sid r [op] st Hr) as H.
    rewrite run_cons in H. cbn [run fst] in H.
    apply H. intros now Hin. apply (Hno now).
    apply list_elem_of_singleton in Hin as ->. by left.
  - apply IH. intros now Hin. apply (Hno now). by right.
Qed.

Lemma run_within_capacity ops st :
  (1 ≤ maxLogsPerSession st)%Z →
  within_capacity st → within_capacity (run ops st).1.
Proof.
  intros Hmax Hall. unfold within_capacity.
  destruct (run_config ops st) as [-> _].
  apply (run_all_buffers _ (maxLogsPerSession st)); try done.
  - intros now. cbn [logs length]. lia.
  - intros log b Hb. cbn [push logs]. unfold evict.
    rewrite length_app. cbn [length].
    case_bool_decide; [rewrite length_drop|]; lia.
Qed.

(** C1, as amended: let the configured [maxLogsPerSession] be at least 1
    and no buffer of the store be longer than it.  Then, whatever
    operations follow, sweeps included, the buffer of a session is never
    longer than [maxLogsPerSession]; and over any sequence of operations in
    which no sweep deletes the session, its buffer holds the most recent
    [maxLogsPerSession] records of what it held followed by the records of
    the [addLog] calls to the session, in call order: once there were at
    least [maxLogsPerSession] such calls, exactly the most recent
    [maxLogsPerSession] records of the calls. *)
Theorem addLog_bounded_fifo (st : SessionStore) (sid : string) (ops : list Op) :
  wf st →
  inj_sessions st →
  (1 ≤ maxLogsPerSession st)%Z →
  within_capacity st →
  let n := Z.to_nat (maxLogsPerSession st) in
  (∀ k, (Z.of_nat (length (getBufferedLogs sid (run (take k ops) st).1))
         ≤ maxLogsPerSession st)%Z)
  ∧ (never_dropped sid ops st →
     getBufferedLogs sid (run ops st).1
     = keep n (getBufferedLogs sid st ++ added sid ops)
     ∧ (n ≤ length (added sid ops) →
        getBufferedLogs sid (run ops st).1 = keep n (added sid ops)
        ∧ length (getBufferedLogs sid (run ops st).1) = n)).
Proof.
  intros Hwf Hinj Hmax Hcap n.
  assert (Hbound : ∀ ops', (Z.of_nat (length (getBufferedLogs sid (run ops' st).1))
                            ≤ maxLogsPerSession st)%Z).
  { intros ops'. pose proof (run_within_capacity ops' st Hmax Hcap) as Hall.
    destruct (run_config ops' st) as [Hm _]. unfold getBufferedLogs.
    destruct (session sid _) as [b|] eqn:Hs; [|cbn [length]; lia].
    rewrite <- Hm. apply (all_buffers_session _ _ _ _ Hall Hs). }
  split; [intros k; apply Hbound|].
  intros Hkept.
  assert (Hgen : getBufferedLogs sid (run ops st).1
                 = keep n (getBufferedLogs sid st ++ added sid ops)).
  { apply run_keep; [done..| |done]. symmetry. apply keep_all.
    specialize (Hbound []). cbn in Hbound. lia. }
  split; [exact Hgen|].
  intros Hn. rewrite Hgen, keep_app_ge by done.
  split; [done|]. rewrite keep_length. lia.
Qed.

Lemma addLog_bounded_fifo_witness :
  getBufferedLogs "s1"
    (run [OpAddLog 10 "s1" logA; OpSubscribe 15 "s1" 7; OpAddLog 20 "s1" logB;
          OpAddLog 25 "s2" logA; OpCleanup 30000; OpAddLog 30010 "s1" logC] store2).1
  = [logB; logC].
Proof.
  destruct (addLog_bounded_fifo store2 "s1"
              [OpAddLog 10 "s1" logA; OpSubscribe 15 "s1" 7; OpAddLog 20 "s1" logB;
               OpAddLog 25 "s2" logA; OpCleanup 30000; OpAddLog 30010 "s1" logC])
    as (_ & H).
  - apply wf_new.
  - apply inj_new.
  - vm_compute. discriminate.
  - apply all_buffers_new.
  - assert (Hkept : never_dropped "s1"
                      [OpAddLog 10 "s1" logA; OpSubscribe 15 "s1" 7; OpAddLog 20 "s1" logB;
                       OpAddLog 25 "s2" logA; OpCleanup 30000; OpAddLog 30010 "s1" logC]
                      store2).
    { cbn [never_dropped]. repeat split; intros _; vm_compute; eauto. }
    destruct (H Hkept) as (_ & Hfull).
    assert (Hn : Z.to_nat (maxLogsPerSession store2)
                 ≤ length (added "s1"
                      [OpAddLog 10 "s1" logA; OpSubscribe 15 "s1" 7; OpAddLog 20 "s1" logB;
                       OpAddLog 25 "s2" logA; OpCleanup 30000; OpAddLog 30010 "s1" logC])).
    { vm_compute. lia. }
    destruct (Hfull Hn) as [Heq _]. rewrite Heq. vm_compute. reflexivity.
Defined.

(** C1 as stated fails across a sweep: at capacity 2 and a TTL of 60 s,
    the records A and B are added, the sweep runs after the TTL and deletes
    the session, and the third [addLog] starts a new buffer: after three
    calls the buffer holds [C], not the two most recent records B and C. *)
Lemma addLog_history_cut_by_sweep :
  let ops := [OpAddLog 0 "s1" logA; OpAddLog 1 "s1" logB; OpCleanup 60002;
              OpAddLog 60003 "s1" logC] in
  maxLogsPerSession store2 = 2%Z
  ∧ added "s1" ops = [logA; logB; logC]
  ∧ getBufferedLogs "s1" (run ops store2).1 = [logC]
  ∧ getBufferedLogs "s1" (run ops store2).1 ≠ keep 2 (added "s1" ops).
Proof. by vm_compute. Qed.

(** ** Unsubscribing *)

Lemma set_delete_set_add cb l : set_delete cb (set_add cb l) = set_delete cb l.
Proof.
  unfold set_delete, set_add. case_decide; [done|].
  rewrite filter_app, filter_cons_False, filter_nil, app_nil_r by naive_solver. done.
Qed.

Lemma set_delete_idemp cb l : set_delete cb (set_delete cb l) = set_delete cb l.
Proof.
  unfold set_delete. induction l as [|x l IH]; [done|].
  destruct (decide (x ≠ cb)).
  - rewrite !filter_cons_True by done. by rewrite IH.
  - rewrite !filter_cons_False by done. exact IH.
Qed.

Lemma unsubscribe_idemp h st : unsubscribe h (unsubscribe h st) = unsubscribe h st.
Proof.
  unfold unsubscribe, set_heap. cbn. f_equal.
  rewrite alter_alter_eq. apply alter_ext. intros b _.
  unfold compose. cbn [logs lastAccess subscribers]. by rewrite set_delete_idemp.
Qed.

Lemma subscribe_unsubscribe_session st now sid cb :
  wf st →
  wf (unsubscribe (subscribe now sid cb st).1.2 (subscribe now sid cb st).1.1)
  ∧ session sid (unsubscribe (subscribe now sid cb st).1.2 (subscribe now sid cb st).1.1)
    = Some {| logs := getBufferedLogs sid st; lastAccess := now;
              subscribers := filter (λ c, c ≠ cb) (subscribers_of sid st) |}.
Proof.
  intros Hwf.
  destruct (subscribe_spec now sid cb st Hwf) as (Hwf1 & Hs1 & Hcb & Hsess1 & _).
  split; [by apply wf_unsubscribe|].
  unfold session in *. unfold unsubscribe. cbn [sessions set_heap heap].
  rewrite Hs1 in *. cbn [mbind option_bind] in *. rewrite lookup_alter_eq, Hsess1.
  cbn [fmap option_fmap option_map logs lastAccess subscribers].
  by rewrite Hcb, set_delete_set_add.
Qed.

Lemma addLog_skips_absent_listener st t sid log cb :
  wf st → cb ∉ subscribers_of sid st → (cb, log) ∉ (addLog t sid log st).2.
Proof.
  intros Hwf Hcb. destruct (addLog_spec t sid log st Hwf) as (_ & _ & -> & _).
  intros Hin. by apply list_elem_of_fmap in Hin as (c & [= <-] & Hc).
Qed.

(** X4: calling the handle returned by [subscribe] removes the listener
    from the session, whether or not it was registered before; the buffer
    stays, the other listeners keep their order, a later [addLog] calls
    them and not the removed one; calling the handle again changes
    nothing. *)
Theorem unsubscribe_removes_listener (st : SessionStore) (now : Z) (sid : string) (cb : nat)
    (t : Z) (log : ServerFetchLog) :
  wf st →
  let st1 := (subscribe now sid cb st).1.1 in
  let h := (subscribe now sid cb st).1.2 in
  let st2 := unsubscribe h st1 in
  subscribers_of sid st2 = filter (λ c, c ≠ cb) (subscribers_of sid st)
  ∧ getBufferedLogs sid st2 = getBufferedLogs sid st
  ∧ (addLog t sid log st2).2
    = map (λ c, (c, log)) (filter (λ c, c ≠ cb) (subscribers_of sid st))
  ∧ ((cb, log) ∉ (addLog t sid log st2).2)
  ∧ unsubscribe h st2 = st2.
Proof.
  intros Hwf st1 h st2.
  destruct (subscribe_unsubscribe_session st now sid cb Hwf) as [Hwf2 Hsess2].
  fold st1 h in Hwf2, Hsess2. fold st2 in Hwf2, Hsess2.
  assert (Hsubs : subscribers_of sid st2 = filter (λ c, c ≠ cb) (subscribers_of sid st)).
  { unfold subscribers_of at 1. by rewrite Hsess2. }
  destruct (addLog_spec t sid log st2 Hwf2) as (_ & _ & Hcalls & _).
  split_and!.
  - exact Hsubs.
  - unfold getBufferedLogs at 1. by rewrite Hsess2.
  - by rewrite Hcalls, Hsubs.
  - apply addLog_skips_absent_listener; [done|]. rewrite Hsubs.
    intros Hc. by apply list_elem_of_filter in Hc as [Hc _].
  - apply unsubscribe_idemp.
Qed.

Lemma unsubscribe_removes_listener_witness :
  (addLog 5 "s1" logB
     (unsubscribe (subscribe 2 "s1" 7 (subscribe 1 "s1" 8 store2).1.1).1.2
        (subscribe 2 "s1" 7 (subscribe 1 "s1" 8 store2).1.1).1.1)).2
  = [(8, logB)].
Proof.
  destruct (unsubscribe_removes_listener (subscribe 1 "s1" 8 store2).1.1 2 "s1" 7 5 logB)
    as (_ & _ & H & _).
  - apply (subscribe_spec 1 "s1" 8 store2), wf_new.
  - rewrite H. vm_compute. reflexivity.
Defined.

(** ** Creation, sweep and teardown *)

(** X5: a session is created by its first use.  On a session the store
    does not hold, [addLog] leaves a buffer with exactly the record and
    calls nobody, and [subscribe] leaves an empty buffer with the listener
    as its only one and replays nothing; both set the last-access time. *)
Theorem first_use_creates_session (st : SessionStore) (now : Z) (sid : string)
    (log : ServerFetchLog) (cb : nat) :
  wf st →
  session sid st = None →
  addLog now sid log st
    = ((addLog now sid log st).1, [])
  ∧ session sid (addLog now sid log st).1
    = Some {| logs := [log]; lastAccess := now; subscribers := [] |}
  ∧ (subscribe now sid cb st).2 = []
  ∧ session sid (subscribe now sid cb st).1.1
    = Some {| logs := []; lastAccess := now; subscribers := [cb] |}.
Proof.
  intros Hwf Hnone.
  assert (Hlogs : getBufferedLogs sid st = []) by (unfold getBufferedLogs; by rewrite Hnone).
  assert (Hsubs : subscribers_of sid st = []) by (unfold subscribers_of; by rewrite Hnone).
  destruct (addLog_spec now sid log st Hwf) as (_ & Hs & Hcalls & _).
  destruct (subscribe_spec now sid cb st Hwf) as (_ & _ & _ & Hs' & Hcalls' & _).
  rewrite Hlogs, Hsubs in *.
  split_and!.
  - destruct (addLog now sid log st) as [st' calls]. cbn in *. by rewrite Hcalls.
  - rewrite Hs. f_equal. f_equal. unfold evict. by case_bool_decide.
  - exact Hcalls'.
  - exact Hs'.
Qed.

Lemma first_use_creates_session_witness :
  session "s1" (addLog 5 "s1" logA store0).1
  = Some {| logs := [logA]; lastAccess := 5; subscribers := [] |}.
Proof.
  destruct (first_use_creates_session store0 5 "s1" logA 0) as (_ & H & _).
  - apply wf_new.
  - reflexivity.
  - exact H.
Defined.

(** X6: the sweep only removes.  It leaves the buffer objects as they
    are, every session it keeps is held in the buffer it was held in, and a
    second sweep at the same clock reading removes nothing more. *)
Theorem cleanup_only_removes (now : Z) (st : SessionStore) :
  heap (cleanup now st) = heap st
  ∧ (∀ sid r, sessions (cleanup now st) !! sid = Some r → sessions st !! sid = Some r)
  ∧ cleanup now (cleanup now st) = cleanup now st.
Proof.
  split_and!.
  - done.
  - intros sid r. rewrite cleanup_lookup.
    destruct (sessions st !! sid) as [r0|]; [|done].
    destruct (heap st !! r0) as [b|]; [|done]. by destruct (expired now (ttlMs st) b).
  - assert (Hs : sessions (cleanup now (cleanup now st)) = sessions (cleanup now st)).
    { apply map_eq. intros sid. rewrite (cleanup_lookup now (cleanup now st)).
      cbn [heap ttlMs cleanup]. rewrite cleanup_lookup.
      destruct (sessions st !! sid) as [r0|]; [|done].
      destruct (heap st !! r0) as [b|] eqn:Hb; [|by rewrite Hb].
      destruct (expired now (ttlMs st) b) eqn:He; [done|]. by rewrite Hb, He. }
    unfold cleanup at 1. unfold cleanup at 1 in Hs. cbn [sessions] in Hs.
    rewrite Hs. by destruct (cleanup now st).
Qed.

Lemma cleanup_only_removes_witness :
  cleanup 60001 (cleanup 60001 (addLog 0 "s1" logA store2).1)
  = cleanup 60001 (addLog 0 "s1" logA store2).1.
Proof. apply (cleanup_only_removes 60001 (addLog 0 "s1" logA store2).1). Defined.

(** X7: [destroy] forgets every session and stops the timer.  After it
    every session is unknown, and an [addLog] starts a new buffer and calls
    none of the listeners registered before. *)
Theorem destroy_forgets_sessions (st : SessionStore) (now : Z) (sid : string)
    (log : ServerFetchLog) :
  cleanupInterval (destroy st) = false
  ∧ getBufferedLogs sid (destroy st) = []
  ∧ subscribers_of sid (destroy st) = []
  ∧ (addLog now sid log (destroy st)).2 = []
  ∧ getBufferedLogs sid (addLog now sid log (destroy st)).1 = [log].
Proof.
  assert (Hwf : wf (destroy st)).
  { intros s r H. cbn in H. by rewrite lookup_empty in H. }
  assert (Hnone : session sid (destroy st) = None).
  { unfold session. cbn. by rewrite lookup_empty. }
  destruct (addLog_spec now sid log (destroy st) Hwf) as (_ & Hs & Hcalls & _).
  unfold getBufferedLogs, subscribers_of in *. rewrite Hnone in *.
  split_and!; try done.
  rewrite Hs. cbn. unfold evict. by case_bool_decide.
Qed.

(** * Further properties of the interceptor *)

(** With the body read to its end, the wrapper settles as the primitive
    in every branch. *)
Lemma netviewFetch_settles_as_original
    (originalFetch : RequestInfo → option RequestInit → Settled) (cookies : Cookies)
    (rid : string) (startTime endTime now : Z) (input : RequestInfo)
    (init : option RequestInit) (store : SessionStore) :
  (netviewFetch originalFetch cookies rid startTime endTime now input init store).1.1
  = originalFetch input init.
Proof.
  unfold netviewFetch.
  destruct (getSessionId cookies) as [sid|]; [|done].
  case_bool_decide; [done|].
  destruct (includes (url_of input) "/__netview/"); [done|].
  destruct (originalFetch input init) as [response|e].
  - match goal with |- context [addLog now sid ?l store] =>
      by destruct (addLog now sid l store) end.
  - match goal with |- context [addLog now sid ?l store] =>
      by destruct (addLog now sid l store) end.
Qed.

Lemma netviewFetch_before_guards
    (originalFetch : RequestInfo → option RequestInit → Settled) (cookies : Cookies)
    (rid : string) (startTime endTime now : Z) (input : RequestInfo)
    (init : option RequestInit) (store : SessionStore) :
  intercepted cookies input = false →
  netviewFetch originalFetch cookies rid startTime endTime now input init store
  = (originalFetch input init, store, []).
Proof.
  unfold intercepted, netviewFetch.
  destruct (getSessionId cookies) as [sid|]; [|done].
  case_bool_decide; [done|].
  by destruct (includes (url_of input) "/__netview/").
Qed.

(** X8: with listeners that do not throw, the wrapper is transparent
    whenever it settles, and it settles whenever the primitive does and the
    reading of the response body ends.  If the wrapped call settles, it
    resolves with the response, or rejects with the value, of the primitive
    called with the same arguments.  It stays unsettled in two cases only:
    the promise of the primitive never settles, or the call is intercepted
    and the reading of the cloned body never ends although the primitive
    resolved; in both nothing is recorded and no listener is called.  When
    the primitive settles and the body read ends, the store and the
    listener calls are those of [netviewFetch]. *)
Theorem netviewFetch_transparent_when_settled
    (originalFetch : RequestInfo → option RequestInit → Fetched) (cookies : Cookies)
    (rid : string) (startTime endTime now : Z) (input : RequestInfo)
    (init : option RequestInit) (store : SessionStore) :
  let out :=
    netviewFetchAsync originalFetch cookies rid startTime endTime now input init store in
  (∀ s, out.1.1 = Some s → settlement (originalFetch input init) = Some s)
  ∧ (out.1.1 = None ↔
       originalFetch input init = Pending
       ∨ (intercepted cookies input = true
          ∧ ∃ response, originalFetch input init = Unending response))
  ∧ (out.1.1 = None → out.1.2 = store ∧ out.2 = [])
  ∧ (∀ s, originalFetch input init = Ends s →
       out.1.1 = Some s
       ∧ out.1.2
         = (netviewFetch (λ _ _, s) cookies rid startTime endTime now input init store).1.2
       ∧ out.2
         = (netviewFetch (λ _ _, s) cookies rid startTime endTime now input init store).2).
Proof.
  intros out. unfold out, netviewFetchAsync. clear out.
  destruct (intercepted cookies input) eqn:Hguard.
  - destruct (originalFetch input init) as [s|response|] eqn:Horig.
    + pose proof (netviewFetch_settles_as_original (λ _ _, s) cookies rid startTime endTime
                    now input init store) as Hs.
      destruct (netviewFetch (λ _ _, s) cookies rid startTime endTime now input init store)
        as [[s' store'] calls] eqn:Hrun.
      cbn [fst snd] in *. subst s'. split_and!.
      * by intros s0 [= <-].
      * split; [done|]. intros [|(_ & response & ?)]; done.
      * done.
      * intros s0 [= <-]. by rewrite Hrun.
    + cbn [fst snd]. split_and!; try done.
      split; [|done]. intros _. right. eauto.
    + cbn [fst snd]. split_and!; try done.
      split; [|done]. intros _. by left.
  - cbn [fst snd]. split_and!.
    + done.
    + split.
      * intros H. left. by destruct (originalFetch input init).
      * intros [->|(? & _)]; done.
    + done.
    + intros s Hs. rewrite netviewFetch_before_guards by done. by rewrite Hs.
Qed.

Lemma netviewFetch_transparent_when_settled_witness :
  netviewFetchAsync (λ _ _, Unending (mkResponse 200 "OK" [] None)) cookiesAbc "id1" 10 12 12
    (InputString "http://api.test/x") None store2
  = (None, store2, [])
  ∧ (netviewFetchAsync (λ _ _, Ends (Resolved (mkResponse 200 "OK" [] (Some "")))) cookiesAbc
       "id1" 10 12 12 (InputString "http://api.test/x") None store2).1.1
    = Some (Resolved (mkResponse 200 "OK" [] (Some ""))).
Proof.
  split.
  - destruct (netviewFetch_transparent_when_settled
                (λ _ _, Unending (mkResponse 200 "OK" [] None)) cookiesAbc "id1" 10 12 12
                (InputString "http://api.test/x") None store2) as (_ & [_ Hnone] & Hleft & _).
    assert (Hunsettled :
              (netviewFetchAsync (λ _ _, Unending (mkResponse 200 "OK" [] None)) cookiesAbc
                 "id1" 10 12 12 (InputString "http://api.test/x") None store2).1.1 = None).
    { apply Hnone. right. split; [by vm_compute|]. by eexists. }
    destruct (Hleft Hunsettled) as [Hstore Hcalls].
    destruct (netviewFetchAsync _ cookiesAbc "id1" 10 12 12 _ None store2) as [[s st] calls].
    cbn [fst snd] in *. by rewrite Hunsettled, Hstore, Hcalls.
  - destruct (netviewFetch_transparent_when_settled
                (λ _ _, Ends (Resolved (mkResponse 200 "OK" [] (Some "")))) cookiesAbc "id1"
                10 12 12 (InputString "http://api.test/x") None store2) as (_ & _ & _ & H).
    by destruct (H (Resolved (mkResponse 200 "OK" [] (Some ""))) eq_refl) as [-> _].
Defined.

(** X9: when an intercepted call resolves, exactly one record is handed
    to [addLog] for the resolved session.  It carries the generated id, the
    session id, the start time, the URL, the method ([GET] when none is
    given), the status and status text of the response, its headers as a
    record, no error, the elapsed time, and as response body the text of
    the response, or [[Unable to read body]] when the text cannot be
    read. *)
Theorem netviewFetch_records_response
    (originalFetch : RequestInfo → option RequestInit → Settled) (cookies : Cookies)
    (rid : string) (startTime endTime now : Z) (input : RequestInfo)
    (init : option RequestInit) (store : SessionStore) (sid : string)
    (response : Response) :
  getSessionId cookies = Some sid →
  sid ≠ "" →
  includes (url_of input) "/__netview/" = false →
  originalFetch input init = Resolved response →
  ∃ log,
    netviewFetch originalFetch cookies rid startTime endTime now input init store
      = (Resolved response, (addLog now sid log store).1, (addLog now sid log store).2)
    ∧ id log = rid
    ∧ sessionId log = sid
    ∧ timestamp log = startTime
    ∧ url log = url_of input
    ∧ method log = default "GET" (init ≫= init_method)
    ∧ status log = resp_status response
    ∧ statusText log = resp_statusText response
    ∧ responseHeaders log = headersToRecord (resp_headers response)
    ∧ error log = None
    ∧ duration log = (endTime - startTime)%Z
    ∧ (∀ text, resp_text response = Some text → responseBody log = Some text)
    ∧ (resp_text response = None → responseBody log = Some "[Unable to read body]").
Proof.
  intros Hsid Hne Hurl Hres. unfold netviewFetch.
  rewrite Hsid, bool_decide_eq_false_2, Hurl, Hres by done.
  match goal with |- context [addLog now sid ?l store] => exists l end.
  match goal with |- context [addLog now sid ?l store] =>
    destruct (addLog now sid l store) as [store' calls] end.
  cbn. split_and!; try done.
  - by intros text ->.
  - by intros ->.
Qed.

Lemma netviewFetch_records_response_witness :
  (responseBody <$> getBufferedLogs "abc"
     (netviewFetch (λ _ _, Resolved (mkResponse 404 "Not Found" [] None)) cookiesAbc "id1"
        10 12 12 (InputString "http://api.test/x") None store2).1.2)
  = [Some "[Unable to read body]"].
Proof.
  destruct (netviewFetch_records_response
              (λ _ _, Resolved (mkResponse 404 "Not Found" [] None)) cookiesAbc "id1"
              10 12 12 (InputString "http://api.test/x") None store2 "abc"
              (mkResponse 404 "Not Found" [] None))
    as (log & Hrun & _ & _ & _ & _ & _ & _ & _ & _ & _ & _ & _ & Hbody).
  - vm_compute. reflexivity.
  - discriminate.
  - vm_compute. reflexivity.
  - reflexivity.
  - rewrite Hrun. cbn [fst snd].
    destruct (addLog_spec 12 "abc" log store2 (wf_new _)) as (_ & Hs & _).
    unfold getBufferedLogs at 1. rewrite Hs. cbn [logs].
    rewrite fmap_app. cbn. rewrite Hbody by reflexivity. reflexivity.
Defined.

(** X10: a call whose URL contains [/__netview/] anywhere is not
    observed.  Whatever the session, it returns what the primitive returns,
    adds no record and calls no listener. *)
Theorem netviewFetch_skips_internal_urls
    (originalFetch : RequestInfo → option RequestInit → Settled) (cookies : Cookies)
    (rid : string) (startTime endTime now : Z) (input : RequestInfo)
    (init : option RequestInit) (store : SessionStore) (a b : string) :
  url_of input = a +:+ "/__netview/" +:+ b →
  netviewFetch originalFetch cookies rid startTime endTime now input init store
  = (originalFetch input init, store, []).
Proof.
  intros Hurl. unfold netviewFetch.
  destruct (getSessionId cookies) as [sid|]; [|done].
  case_bool_decide; [done|].
  assert (Hinc : includes (url_of input) "/__netview/" = true).
  { apply includes_spec. eauto. }
  by rewrite Hinc.
Qed.

Lemma netviewFetch_skips_internal_urls_witness :
  netviewFetch okFetch cookiesAbc "id1" 10 12 12
    (InputURL "http://localhost:3000/api/__netview/stream?session=abc") None store2
  = (okFetch (InputURL "http://localhost:3000/api/__netview/stream?session=abc") None,
     store2, []).
Proof.
  apply (netviewFetch_skips_internal_urls okFetch cookiesAbc "id1" 10 12 12
           (InputURL "http://localhost:3000/api/__netview/stream?session=abc") None store2
           "http://localhost:3000/api" "stream?session=abc").
  reflexivity.
Defined.

(** X11: [headersToRecord] keeps, for each header name other than
    [__proto__], the value of the last entry with that name, and nothing
    for a name without entry; for the name [__proto__] it keeps nothing,
    whatever the entries. *)
Theorem headersToRecord_last_write_wins (headers : list (string * string)) (name : string) :
  (name ≠ "__proto__" →
   headersToRecord headers !! name = snd <$> last (filter (λ kv, kv.1 = name) headers))
  ∧ headersToRecord headers !! "__proto__" = None.
Proof.
  unfold headersToRecord. split.
  - intros Hname.
    induction headers as [|[k v] headers IH] using rev_ind; [done|].
    rewrite foldl_snoc, filter_app. cbn [fst snd].
    destruct (decide (k = name)) as [->|Hne].
    + rewrite bool_decide_eq_false_2 by done.
      rewrite lookup_insert_eq, filter_cons_True, filter_nil by done.
      by rewrite last_snoc.
    + rewrite filter_cons_False, filter_nil, app_nil_r by done.
      case_bool_decide; [exact IH|]. by rewrite lookup_insert_ne.
  - induction headers as [|[k v] headers IH] using rev_ind; [done|].
    rewrite foldl_snoc. cbn [fst snd].
    case_bool_decide; [exact IH|]. by rewrite lookup_insert_ne.
Qed.

Lemma headersToRecord_last_write_wins_witness :
  headersToRecord [("accept", "a"); ("__proto__", "p"); ("accept", "b")] !! "accept"
  = Some "b".
Proof.
  apply (headersToRecord_last_write_wins
           [("accept", "a"); ("__proto__", "p"); ("accept", "b")] "accept").
  discriminate.
Defined.

(** X12: a call writes to one session at most.  On a store reached from
    a new one, the buffer, the listeners and the last-access time of every
    session other than the one resolved for the call are left as they
    were. *)
Theorem netviewFetch_leaves_other_sessions
    (originalFetch : RequestInfo → option RequestInit → Settled) (cookies : Cookies)
    (rid : string) (startTime endTime now : Z) (input : RequestInfo)
    (init : option RequestInit) (options : NetViewOptions) (ops : list Op)
    (sid' : string) :
  getSessionId cookies ≠ Some sid' →
  let store := (run ops (new_SessionStore options)).1 in
  session sid'
    (netviewFetch originalFetch cookies rid startTime endTime now input init store).1.2
  = session sid' store.
Proof.
  intros Hother store.
  assert (Hwf : wf store) by apply wf_run, wf_new.
  assert (Hinj : inj_sessions store) by (apply inj_run; [apply wf_new|apply inj_new]).
  unfold netviewFetch.
  destruct (getSessionId cookies) as [sid|]; [|done].
  case_bool_decide; [done|].
  destruct (includes (url_of input) "/__netview/"); [done|].
  assert (Hne : sid ≠ sid') by congruence.
  destruct (originalFetch input init) as [response|e].
  - match goal with |- context [addLog now sid ?l store] =>
      pose proof (addLog_other now sid sid' l store Hwf Hinj Hne) as Hkeep;
      by destruct (addLog now sid l store) end.
  - match goal with |- context [addLog now sid ?l store] =>
      pose proof (addLog_other now sid sid' l store Hwf Hinj Hne) as Hkeep;
      by destruct (addLog now sid l store) end.
Qed.

Lemma netviewFetch_leaves_other_sessions_witness :
  getBufferedLogs "s1"
    (netviewFetch okFetch cookiesAbc "id1" 10 12 12 (InputString "http://api.test/x") None
       (run [OpAddLog 1 "s1" logA] store2).1).1.2
  = [logA].
Proof.
  unfold getBufferedLogs, store2.
  rewrite (netviewFetch_leaves_other_sessions okFetch cookiesAbc "id1" 10 12 12
             (InputString "http://api.test/x") None (mkOptions (Some 2%Z) (Some 60%Z) None)
             [OpAddLog 1 "s1" logA] "s1").
  - vm_compute. reflexivity.
  - vm_compute. discriminate.
Defined.

(** * Further properties of the streaming endpoint and of registration *)

(** X13: registration happens once.  A first [registerNetView] creates
    an empty store with the given options, and the endpoint then opens a
    live stream for any non-empty session id; on a registered process a
    further call, with whatever options, changes nothing: the store and its
    buffers are kept. *)
Theorem registerNetView_once (options options' : NetViewOptions) (p : Process)
    (sid : string) (send_id : nat) (now : Z) :
  registerNetView options' (registerNetView options p) = registerNetView options p
  ∧ (isRegistered p = true → registerNetView options p = p)
  ∧ (isRegistered p = false → sid ≠ "" →
     storeInstance (registerNetView options p) = Some (new_SessionStore options)
     ∧ ∃ store' h,
         GET (Some sid) send_id now (storeInstance (registerNetView options p))
         = Returns
             (StreamResponse
                {| frames := [Comment "connected"]; closed := false;
                   unsubscribe_handle := Some h |},
              Some store')).
Proof.
  unfold registerNetView. split_and!.
  - by destruct (isRegistered p) eqn:Hp; cbn; rewrite ?Hp.
  - by intros ->.
  - intros -> Hne. cbn [storeInstance initStore fst]. split; [done|].
    unfold GET. rewrite bool_decide_eq_false_2 by done. cbn [getStore].
    pose proof (subscribe_spec now sid send_id (new_SessionStore options) (wf_new _))
      as (_ & _ & _ & _ & Hcalls & _).
    destruct (subscribe now sid send_id (new_SessionStore options)) as [[store' h] calls].
    cbn [snd] in Hcalls. subst calls.
    assert (Hlogs : getBufferedLogs sid (new_SessionStore options) = []).
    { unfold getBufferedLogs, session. cbn. by rewrite lookup_empty. }
    rewrite Hlogs. by exists store', h.
Qed.

Lemma registerNetView_once_witness :
  storeInstance
    (registerNetView (mkOptions (Some 5%Z) None None)
       (registerNetView (mkOptions (Some 2%Z) (Some 60%Z) None) process0))
  = Some store2.
Proof.
  destruct (registerNetView_once (mkOptions (Some 2%Z) (Some 60%Z) None)
              (mkOptions (Some 5%Z) None None) process0 "abc" 7 0) as (-> & _ & H).
  destruct H as [H _]; [reflexivity|discriminate|]. exact H.
Defined.

(** A request without session parameter, or with an empty one, is
    answered 400 [Missing session parameter]: no stream is opened, no
    listener registered and no session created, whether or not the store is
    initialized. *)
Lemma GET_rejects_missing_session (send_id : nat) (now : Z)
    (instance : option SessionStore) :
  GET None send_id now instance
    = Returns (PlainResponse "Missing session parameter" 400, instance)
  ∧ GET (Some "") send_id now instance
    = Returns (PlainResponse "Missing session parameter" 400, instance).
Proof. done. Qed.

(** X14: on an initialized store a connection gets the connection
    comment, then one message per record of the buffer of the session,
    oldest first, and stays open; the buffer is left as it was and the
    listener of the connection is registered on the session. *)
Theorem GET_replays_backlog (store : SessionStore) (sid : string) (send_id : nat) (now : Z) :
  wf store →
  sid ≠ "" →
  ∃ store' h,
    GET (Some sid) send_id now (Some store)
    = Returns
        (StreamResponse
           {| frames := Comment "connected" :: map send (getBufferedLogs sid store);
              closed := false;
              unsubscribe_handle := Some h |},
         Some store')
    ∧ getBufferedLogs sid store' = getBufferedLogs sid store
    ∧ send_id ∈ subscribers_of sid store'.
Proof.
  intros Hwf Hne. unfold GET. rewrite bool_decide_eq_false_2 by done. cbn [getStore].
  destruct (subscribe_spec now sid send_id store Hwf) as (_ & _ & _ & Hs & Hcalls & _).
  destruct (subscribe now sid send_id store) as [[store' h] calls].
  cbn [fst snd] in *. subst calls. exists store', h. split_and!.
  - do 4 f_equal. unfold replay. rewrite map_map. done.
  - unfold getBufferedLogs at 1. by rewrite Hs.
  - unfold subscribers_of. rewrite Hs. apply elem_of_set_add_new.
Qed.

Lemma GET_replays_backlog_witness :
  ∃ store' h,
    GET (Some "s1") 7 40 (Some (addLogs "s1" [(10, logA); (20, logB); (30, logC)]%Z store2))
    = Returns
        (StreamResponse
           {| frames := [Comment "connected"; send logB; send logC];
              closed := false;
              unsubscribe_handle := Some h |},
         Some store').
Proof.
  destruct (GET_replays_backlog
              (addLogs "s1" [(10, logA); (20, logB); (30, logC)]%Z store2) "s1" 7 40)
    as (store' & h & H & _).
  - apply (wf_run [OpAddLog 10 "s1" logA; OpAddLog 20 "s1" logB; OpAddLog 30 "s1" logC]
             store2), wf_new.
  - discriminate.
  - exists store', h. rewrite H. reflexivity.
Defined.

(** X15: cancelling a connection detaches its listener.  After [cancel]
    on the stream a connection was given, an [addLog] to the session does
    not call the listener of the connection, the buffer is as before the
    connection, and a second [cancel] changes nothing; on the stream of the
    error case [cancel] does nothing. *)
Theorem cancel_detaches_listener (store : SessionStore) (sid : string) (send_id : nat)
    (now t : Z) (log : ServerFetchLog) (stream : EventStream) (store' : SessionStore) :
  wf store →
  GET (Some sid) send_id now (Some store) = Returns (StreamResponse stream, Some store') →
  ((send_id, log) ∉ (addLog t sid log (cancel stream store')).2)
  ∧ getBufferedLogs sid (cancel stream store') = getBufferedLogs sid store
  ∧ cancel stream (cancel stream store') = cancel stream store'
  ∧ ∀ s, cancel {| frames := [Comment "connected";
                              Data (ErrorPayload "NetView not initialized")];
                   closed := true; unsubscribe_handle := None |} s = s.
Proof.
  intros Hwf. unfold GET. case_bool_decide; [done|]. cbn [getStore].
  destruct (subscribe_unsubscribe_session store now sid send_id Hwf) as [Hwf2 Hsess2].
  destruct (subscribe now sid send_id store) as [[store1 h] calls].
  cbn [fst snd] in *. intros [= <- <-]. cbn [cancel unsubscribe_handle].
  split_and!.
  - apply addLog_skips_absent_listener; [done|]. unfold subscribers_of. rewrite Hsess2.
    cbn [subscribers]. intros Hc. by apply list_elem_of_filter in Hc as [Hc _].
  - unfold getBufferedLogs at 1. by rewrite Hsess2.
  - apply unsubscribe_idemp.
  - done.
Qed.

Lemma cancel_detaches_listener_witness :
  (7, logA) ∉
    (addLog 50 "s1" logA
       (cancel {| frames := [Comment "connected"]; closed := false;
                  unsubscribe_handle := Some (subscribe 40 "s1" 7 store2).1.2 |}
          (subscribe 40 "s1" 7 store2).1.1)).2.
Proof.
  apply (cancel_detaches_listener store2 "s1" 7 40 50 logA
           {| frames := [Comment "connected"]; closed := false;
              unsubscribe_handle := Some (subscribe 40 "s1" 7 store2).1.2 |}
           (subscribe 40 "s1" 7 store2).1.1).
  - apply wf_new.
  - vm_compute. reflexivity.
Defined.

(** * Further properties of the client aggregator *)

Lemma decode_fields (l : ServerFetchLog) :
  let o := Client.decode (LogPayload l) in
  Client.get o "id" = Client.JStr (id l)
  ∧ Client.get o "timestamp" = Client.JNum (timestamp l)
  ∧ Client.get o "method" = Client.JStr (method l)
  ∧ Client.get o "url" = Client.JStr (url l)
  ∧ Client.get o "requestHeaders" = Client.JObj (requestHeaders l)
  ∧ Client.get o "requestBody" = Client.json_of_body (requestBody l)
  ∧ Client.get o "status" = Client.JNum (status l)
  ∧ Client.get o "statusText" = Client.JStr (statusText l)
  ∧ Client.get o "responseHeaders" = Client.JObj (responseHeaders l)
  ∧ Client.get o "responseBody" = Client.json_of_body (responseBody l)
  ∧ Client.get o "duration" = Client.JNum (duration l).
Proof.
  intros o. unfold o, Client.get, Client.decode.
  destruct (error l) as [msg|];
    repeat split;
    repeat first [rewrite lookup_insert_eq; reflexivity | rewrite lookup_insert_ne by done].
Qed.

Lemma unfailed_truthy (l : ServerFetchLog) :
  Client.truthy (Client.get (Client.decode (LogPayload l)) "error") = negb (unfailed l).
Proof.
  rewrite decode_error_field. unfold unfailed.
  by destruct (error l) as [msg|].
Qed.

(** The record [onmessage] builds for the frame of a server record. *)
Lemma onmessage_unfailed (l : ServerFetchLog) (requests : list Client.NetworkRequest) :
  unfailed l = true →
  Client.onmessage (Some (Client.decode (LogPayload l))) requests
  = requests ++
    [ {| Client.id := "server-" +:+ id l;
         Client.timestamp := Client.JNum (timestamp l);
         Client.method := Client.JStr (method l);
         Client.url := Client.JStr (url l);
         Client.requestHeaders := Client.JObj (requestHeaders l);
         Client.requestBody := Client.json_of_body (requestBody l);
         Client.status := Client.JNum (status l);
         Client.statusText := Client.JStr (statusText l);
         Client.responseHeaders := Client.JObj (responseHeaders l);
         Client.responseBody := Client.json_of_body (responseBody l);
         Client.duration := Client.JNum (duration l);
         Client.type := Client.TypeFetch;
         Client.source := Client.SourceServer;
         Client.state := Client.StateCompleted;
         Client.error := match error l with
                         | Some msg => Client.JStr msg
                         | None => Client.JUndefined
                         end |} ].
Proof.
  intros Hok. unfold Client.onmessage.
  rewrite unfailed_truthy, Hok. cbn [negb].
  destruct (decode_fields l) as (-> & -> & -> & -> & -> & -> & -> & -> & -> & -> & ->).
  by rewrite decode_error_field.
Qed.

Lemma onmessage_failed (l : ServerFetchLog) (requests : list Client.NetworkRequest) :
  unfailed l = false →
  Client.onmessage (Some (Client.decode (LogPayload l))) requests = requests.
Proof. intros Hko. unfold Client.onmessage. by rewrite unfailed_truthy, Hko. Qed.

(** X16: the frame of a server record of a call that did not fail comes
    out of the stream as the same record.  The client appends one request
    whose id is the id of the record prefixed with [server-], whose
    timestamp, method, URL, headers, bodies, status and duration are those
    of the record, tagged as a fetch of origin [server] in state
    [completed]; the collection before it is kept in order. *)
Theorem onmessage_converts_server_record (l : ServerFetchLog)
    (requests : list Client.NetworkRequest) :
  error l = None →
  Client.onmessage (Some (Client.decode (LogPayload l))) requests
  = requests ++
    [ {| Client.id := "server-" +:+ id l;
         Client.timestamp := Client.JNum (timestamp l);
         Client.method := Client.JStr (method l);
         Client.url := Client.JStr (url l);
         Client.requestHeaders := Client.JObj (requestHeaders l);
         Client.requestBody := Client.json_of_body (requestBody l);
         Client.status := Client.JNum (status l);
         Client.statusText := Client.JStr (statusText l);
         Client.responseHeaders := Client.JObj (responseHeaders l);
         Client.responseBody := Client.json_of_body (responseBody l);
         Client.duration := Client.JNum (duration l);
         Client.type := Client.TypeFetch;
         Client.source := Client.SourceServer;
         Client.state := Client.StateCompleted;
         Client.error := Client.JUndefined |} ].
Proof.
  intros Herr. rewrite onmessage_unfailed by (unfold unfailed; by rewrite Herr).
  by rewrite Herr.
Qed.

Lemma onmessage_converts_server_record_witness :
  Client.id <$> Client.onmessage (Some (Client.decode (LogPayload logA))) [] = ["server-A"].
Proof.
  rewrite (onmessage_converts_server_record logA []); reflexivity.
Defined.

Lemma deliver_app datas1 datas2 requests :
  deliver (datas1 ++ datas2) requests = deliver datas2 (deliver datas1 requests).
Proof. unfold deliver. apply foldl_app. Qed.

Lemma deliver_cons d datas requests :
  deliver (d :: datas) requests = deliver datas (Client.onmessage d requests).
Proof. reflexivity. Qed.

Lemma messages_send l fs :
  Client.messages (send l :: fs) = Some (Client.decode (LogPayload l)) :: Client.messages fs.
Proof. reflexivity. Qed.

Lemma deliver_logs (backlog : list ServerFetchLog) : ∀ requests,
  Client.id <$> deliver (Client.messages (map send backlog)) requests
  = (Client.id <$> requests)
    ++ ((λ l, "server-" +:+ id l) <$> filter (λ l, unfailed l = true) backlog).
Proof.
  induction backlog as [|l backlog IH]; intros requests.
  - cbn. by rewrite app_nil_r.
  - cbn [map]. rewrite messages_send, deliver_cons, IH.
    destruct (unfailed l) eqn:Hl.
    + rewrite onmessage_unfailed, filter_cons_True by done.
      rewrite fmap_app, fmap_cons. cbn [Client.id fmap list_fmap].
      by rewrite <- app_assoc.
    + rewrite onmessage_failed, filter_cons_False by (done || congruence). done.
Qed.

(** X17: replay reaches the page.  When a page connects to an
    initialized store, the message events of the stream it is given extend
    its collection by one request per buffered record whose error is absent
    or empty, in buffer order, each with the id of the record prefixed with
    [server-]; the connection comment adds nothing. *)
Theorem connection_replays_into_collection (store : SessionStore) (sid : string)
    (send_id : nat) (now : Z) (stream : EventStream) (store' : SessionStore)
    (requests : list Client.NetworkRequest) :
  wf store →
  GET (Some sid) send_id now (Some store) = Returns (StreamResponse stream, Some store') →
  Client.id <$> deliver (Client.messages (frames stream)) requests
  = (Client.id <$> requests)
    ++ ((λ l, "server-" +:+ id l)
          <$> filter (λ l, unfailed l = true) (getBufferedLogs sid store)).
Proof.
  intros Hwf. unfold GET. case_bool_decide; [done|]. cbn [getStore].
  destruct (subscribe_spec now sid send_id store Hwf) as (_ & _ & _ & _ & Hcalls & _).
  destruct (subscribe now sid send_id store) as [[store1 h] calls].
  cbn [fst snd] in *. intros [= <- <-]. cbn [frames]. subst calls.
  unfold replay. rewrite map_map. cbn [snd].
  change (Client.messages (Comment "connected" :: ?fs)) with (Client.messages fs).
  apply deliver_logs.
Qed.

Lemma connection_replays_into_collection_witness :
  Client.id <$> deliver
    (Client.messages [Comment "connected"; send logB; send logC]) []
  = ["server-B"; "server-C"].
Proof.
  pose proof (connection_replays_into_collection
             (addLogs "s1" [(10, logA); (20, logB); (30, logC)]%Z store2) "s1" 7 40
             {| frames := [Comment "connected"; send logB; send logC]; closed := false;
                unsubscribe_handle :=
                  Some (subscribe 40 "s1" 7
                          (addLogs "s1" [(10, logA); (20, logB); (30, logC)]%Z store2)).1.2 |}
             (subscribe 40 "s1" 7
                (addLogs "s1" [(10, logA); (20, logB); (30, logC)]%Z store2)).1.1 [])
    as H.
  cbn [frames] in H. rewrite H.
  - vm_compute. reflexivity.
  - apply (wf_run [OpAddLog 10 "s1" logA; OpAddLog 20 "s1" logB; OpAddLog 30 "s1" logC]
             store2), wf_new.
  - vm_compute. reflexivity.
Defined.

(** X18: a page whose server never registered degrades silently.  The
    stream the endpoint gives without a store, and any frame that does not
    parse, leave the collection of the page exactly as it was. *)
Theorem uninitialized_stream_is_silent (sid : string) (send_id : nat) (now : Z)
    (stream : EventStream) (instance : option SessionStore)
    (requests : list Client.NetworkRequest) :
  GET (Some sid) send_id now None = Returns (StreamResponse stream, instance) →
  deliver (Client.messages (frames stream)) requests = requests
  ∧ Client.onmessage None requests = requests.
Proof.
  unfold GET. case_bool_decide; [done|]. cbn [getStore]. intros [= <- <-].
  split; [|done]. cbn [frames Client.messages omap]. unfold deliver. cbn [foldl].
  by vm_compute.
Qed.

Lemma uninitialized_stream_is_silent_witness :
  deliver
    (Client.messages
       [Comment "connected"; Data (ErrorPayload "NetView not initialized")]) []
  = [].
Proof.
  apply (uninitialized_stream_is_silent "abc" 7 0
           {| frames := [Comment "connected"; Data (ErrorPayload "NetView not initialized")];
              closed := true; unsubscribe_handle := None |} None []).
  reflexivity.
Defined.

(** * Properties of the in-page interceptor and of the message handler *)

Lemma strict_eq_str (a : Client.JsVal) (s : string) :
  Page.strict_eq a (Client.JStr s) = true ↔ a = Client.JStr s.
Proof.
  destruct a; cbn; try (split; [done|discriminate]).
  rewrite bool_decide_eq_true. split; congruence.
Qed.

Lemma handleMessage_start payload requests :
  Page.handleMessage (Page.posted "request-start" payload) requests
  = requests ++ [Page.newRequest payload].
Proof. reflexivity. Qed.

Lemma handleMessage_complete payload requests :
  Page.handleMessage (Page.posted "request-complete" payload) requests
  = map (Page.merge payload) requests.
Proof. reflexivity. Qed.

Lemma handleMessage_error payload requests :
  Page.handleMessage (Page.posted "request-error" payload) requests
  = map (Page.merge payload) requests.
Proof. reflexivity. Qed.

Lemma merge_other_id payload req :
  Page.strict_eq (Client.get req "id") (Client.get payload "id") = false →
  Page.merge payload req = req.
Proof. intros H. unfold Page.merge. by rewrite H. Qed.

Lemma map_merge_unknown payload requests :
  Forall (λ req, Page.strict_eq (Client.get req "id") (Client.get payload "id") = false)
    requests →
  map (Page.merge payload) requests = requests.
Proof.
  induction 1 as [|req requests Hreq _ IH]; [done|].
  cbn [map]. by rewrite merge_other_id, IH.
Qed.

(** X19: a settlement message never adds or removes a request, and one
    for an id that no request of the collection has changes nothing. *)
Theorem settlement_of_unknown_id_is_inert (event : Page.MessageEvent)
    (m : Page.Message) (payload : gmap string Client.JsVal)
    (requests : list (gmap string Client.JsVal)) :
  Page.data event = Some m →
  Page.msg_payload m = Some payload →
  Page.msg_type m = Client.JStr "request-complete"
  ∨ Page.msg_type m = Client.JStr "request-error" →
  length (Page.handleMessage event requests) = length requests
  ∧ (Forall (λ req, Page.strict_eq (Client.get req "id") (Client.get payload "id") = false)
       requests →
     Page.handleMessage event requests = requests).
Proof.
  intros Hdata Hpayload Htype. unfold Page.handleMessage. rewrite Hdata, Hpayload.
  destruct (negb (Page.from_window event)); [done|].
  destruct (negb (Page.strict_eq (Page.msg_source m) (Client.JStr "netview-interceptor")));
    [done|].
  assert (Hc : Page.strict_eq (Client.JStr "request-complete") (Client.JStr "request-start")
               = false) by reflexivity.
  assert (He : Page.strict_eq (Client.JStr "request-error") (Client.JStr "request-start")
               = false) by reflexivity.
  assert (Hcc : Page.strict_eq (Client.JStr "request-complete")
                  (Client.JStr "request-complete") = true) by reflexivity.
  assert (Hee : Page.strict_eq (Client.JStr "request-error") (Client.JStr "request-error")
                = true) by reflexivity.
  destruct Htype as [-> | ->]; rewrite ?Hc, ?He, ?Hcc, ?Hee, ?orb_true_r; cbn [orb];
    (split; [by rewrite length_map|apply map_merge_unknown]).
Qed.

Lemma settlement_of_unknown_id_is_inert_witness :
  Page.handleMessage
    (Page.posted "request-error" {[ "id" := Client.JStr "2"; "state" := Client.JStr "error" ]})
    [Page.newRequest {[ "id" := Client.JStr "1" ]}]
  = [Page.newRequest {[ "id" := Client.JStr "1" ]}].
Proof.
  eapply (settlement_of_unknown_id_is_inert
            (Page.posted "request-error"
               {[ "id" := Client.JStr "2"; "state" := Client.JStr "error" ]})).
  - reflexivity.
  - reflexivity.
  - right. reflexivity.
  - apply Forall_singleton. vm_compute. reflexivity.
Defined.

Lemma merge_same_id payload req rid :
  Client.get req "id" = Client.JStr rid →
  Client.get payload "id" = Client.JStr rid →
  Page.merge payload req = payload ∪ req.
Proof.
  intros Hreq Hpay. unfold Page.merge. rewrite Hreq, Hpay. cbn.
  by rewrite bool_decide_eq_true_2.
Qed.

Lemma newRequest_id payload : Client.get (Page.newRequest payload) "id" = Client.get payload "id".
Proof. unfold Page.newRequest, Client.get at 1. by rewrite lookup_insert_eq. Qed.

(** A start message followed by the settlement message of the same id,
    on a collection where the id is new. *)
Lemma start_then_settle p1 p2 rid requests :
  Client.get p1 "id" = Client.JStr rid →
  Client.get p2 "id" = Client.JStr rid →
  Forall (λ req, Client.get req "id" ≠ Client.JStr rid) requests →
  map (Page.merge p2) (requests ++ [Page.newRequest p1])
  = requests ++ [p2 ∪ Page.newRequest p1].
Proof.
  intros H1 H2 Hfresh. rewrite map_app. cbn [map]. f_equal.
  - apply map_merge_unknown. eapply Forall_impl; [exact Hfresh|].
    intros req Hreq. cbn beta in *. rewrite H2.
    destruct (Page.strict_eq (Client.get req "id") (Client.JStr rid)) eqn:Heq; [|done].
    by apply strict_eq_str in Heq.
  - f_equal. apply (merge_same_id _ _ rid); [|done]. by rewrite newRequest_id.
Qed.

(** X20: the life of a page call in the collection.  When the id drawn
    for the call is not the id of a request already in the collection, the
    messages of one wrapped [fetch], handled in order, first append one
    request in state [pending] and then settle that request and no other:
    [completed] with the status of the response when the call resolves,
    [error] with the message text when it rejects (or when cloning the
    response throws); the request keeps its id, URL, start time and origin
    [client], and the requests before it are unchanged. *)
Theorem pageFetch_lifecycle (toUpperCase : string → string)
    (originalFetch : RequestInfo → option Page.RequestInit → Page.Settled)
    (rid : string) (startTime endTime : Z) (input : RequestInfo)
    (init : option Page.RequestInit) (requests : list (gmap string Client.JsVal)) :
  Forall (λ req, Client.get req "id" ≠ Client.JStr rid) requests →
  let outcome := (Page.pageFetch toUpperCase originalFetch rid startTime endTime input init).1 in
  let events := (Page.pageFetch toUpperCase originalFetch rid startTime endTime input init).2 in
  ∃ started final,
    Page.handleAll (take 1 events) requests = requests ++ [started]
    ∧ Client.get started "state" = Client.JStr "pending"
    ∧ Page.handleAll events requests = requests ++ [final]
    ∧ Client.get final "id" = Client.JStr rid
    ∧ Client.get final "source" = Client.JStr "client"
    ∧ Client.get final "url" = Client.JStr (url_of input)
    ∧ Client.get final "timestamp" = Client.JNum startTime
    ∧ Client.get final "duration" = Client.JNum (endTime - startTime)
    ∧ match outcome with
      | Page.Resolved r =>
          originalFetch input init = Page.Resolved r
          ∧ Client.get final "state" = Client.JStr "completed"
          ∧ Client.get final "status" = Client.JNum (resp_status (Page.response r))
          ∧ Client.get final "error" = Client.JUndefined
      | Page.Rejected e =>
          Client.get final "state" = Client.JStr "error"
          ∧ Client.get final "error" = Client.JStr (error_text e)
          ∧ Client.get final "status" = Client.JUndefined
      end.
Proof.
  intros Hfresh. unfold Page.pageFetch.
  destruct (originalFetch input init) as [r|e] eqn:Hfetch;
    [destruct (Page.clone_throws r) as [e|] eqn:Hclone|];
    cbn [fst snd take Page.handleAll foldl];
    rewrite handleMessage_start;
    rewrite ?handleMessage_complete, ?handleMessage_error;
    (rewrite (start_then_settle _ _ rid); [|reflexivity|reflexivity|exact Hfresh]);
    do 2 eexists; (split; [reflexivity|]); (split; [reflexivity|]);
    (split; [reflexivity|]); split_and!; reflexivity.
Qed.

Lemma pageFetch_lifecycle_witness :
  ∃ final,
    Page.handleAll
      (Page.pageFetch (λ s, s) (λ _ _, Page.Rejected (ErrorObject "boom")) "17-abc" 10 12
         (InputString "http://api.test/x") None).2 []
    = [final]
    ∧ Client.get final "state" = Client.JStr "error"
    ∧ Client.get final "error" = Client.JStr "boom".
Proof.
  destruct (pageFetch_lifecycle (λ s, s) (λ _ _, Page.Rejected (ErrorObject "boom"))
              "17-abc" 10 12 (InputString "http://api.test/x") None [])
    as (started & final & _ & _ & Hall & _ & _ & _ & _ & _ & Hstate & Herror & _).
  - apply Forall_nil_2.
  - exists final. split_and!; [exact Hall|exact Hstate|exact Herror].
Defined.

Lemma strict_eq_str_l (s : string) (b : Client.JsVal) :
  Page.strict_eq (Client.JStr s) b = true ↔ b = Client.JStr s.
Proof.
  destruct b; cbn; try (split; [done|discriminate]).
  rewrite bool_decide_eq_true. split; congruence.
Qed.

Lemma to_object_id r : Client.get (Page.to_object r) "id" = Client.JStr (Client.id r).
Proof. unfold Page.to_object, Client.get. by rewrite lookup_insert_eq. Qed.

Lemma onmessage_server_prefix data requests :
  Forall (λ r, ∃ x, Client.id r = "server-" +:+ x) requests →
  Forall (λ r, ∃ x, Client.id r = "server-" +:+ x) (Client.onmessage data requests).
Proof.
  intros Hall. unfold Client.onmessage. destruct data as [log|]; [|done].
  destruct (Client.truthy (Client.get log "error")); [done|].
  apply Forall_app. split; [done|]. apply Forall_singleton. cbn. eauto.
Qed.

Lemma deliver_server_prefix datas : ∀ requests,
  Forall (λ r, ∃ x, Client.id r = "server-" +:+ x) requests →
  Forall (λ r, ∃ x, Client.id r = "server-" +:+ x) (deliver datas requests).
Proof.
  induction datas as [|d datas IH]; intros requests Hall; [done|].
  rewrite deliver_cons. by apply IH, onmessage_server_prefix.
Qed.

(** X21: the two sources do not disturb each other.  Every request the
    stream handler appends has an id that starts with [server-]; so a
    settlement message of the page whose id does not start with [server-]
    leaves all the requests that came from the stream exactly as they
    are. *)
Theorem page_settlement_spares_server_records
    (datas : list (option (gmap string Client.JsVal)))
    (payload : gmap string Client.JsVal) (type : string) :
  (∀ x, Client.get payload "id" ≠ Client.JStr ("server-" +:+ x)) →
  type = "request-complete" ∨ type = "request-error" →
  Forall (λ r, ∃ x, Client.id r = "server-" +:+ x) (deliver datas [])
  ∧ Page.handleMessage (Page.posted type payload) (Page.to_object <$> deliver datas [])
    = Page.to_object <$> deliver datas [].
Proof.
  intros Hid Htype.
  assert (Hprefix : Forall (λ r, ∃ x, Client.id r = "server-" +:+ x) (deliver datas [])).
  { apply deliver_server_prefix, Forall_nil_2. }
  split; [done|].
  assert (Hmap : map (Page.merge payload) (Page.to_object <$> deliver datas [])
                 = Page.to_object <$> deliver datas []).
  { apply map_merge_unknown, Forall_fmap. eapply Forall_impl; [exact Hprefix|].
    intros r [x Hx]. cbn. rewrite to_object_id, Hx.
    destruct (Page.strict_eq _ _) eqn:Heq; [|done].
    apply strict_eq_str_l in Heq. by destruct (Hid x). }
  destruct Htype as [-> | ->];
    [rewrite handleMessage_complete|rewrite handleMessage_error]; exact Hmap.
Qed.

Lemma page_settlement_spares_server_records_witness :
  Page.handleMessage
    (Page.posted "request-error"
       {[ "id" := Client.JStr "17-abc"; "state" := Client.JStr "error" ]})
    (Page.to_object <$> deliver [Some (Client.decode (LogPayload logA))] [])
  = Page.to_object <$> deliver [Some (Client.decode (LogPayload logA))] [].
Proof.
  apply (page_settlement_spares_server_records
           [Some (Client.decode (LogPayload logA))]
           {[ "id" := Client.JStr "17-abc"; "state" := Client.JStr "error" ]}
           "request-error").
  - intros x. vm_compute. discriminate.
  - right. reflexivity.
Defined.

(** When the primitive settles and the reading of the cloned body ends,
    the in-page wrapper posts the start message and one settlement message,
    and settles as the primitive unless [response.clone()] throws. *)
Lemma pageFetch_settlement (toUpperCase : string → string)
    (originalFetch : RequestInfo → option Page.RequestInit → Page.Settled)
    (rid : string) (startTime endTime : Z) (input : RequestInfo)
    (init : option Page.RequestInit) :
  let run := Page.pageFetch toUpperCase originalFetch rid startTime endTime input init in
  (∃ m, run.2 = [Page.requestStart toUpperCase rid startTime input init; m])
  ∧ ((∀ r, originalFetch input init = Page.Resolved r → Page.clone_throws r = None) →
     run.1 = originalFetch input init)
  ∧ (∀ r e, originalFetch input init = Page.Resolved r → Page.clone_throws r = Some e →
       run.1 = Page.Rejected e).
Proof.
  intros run. unfold run, Page.pageFetch.
  destruct (originalFetch input init) as [r|e];
    [destruct (Page.clone_throws r) as [e|] eqn:Hclone|]; cbn [fst snd].
  - split_and!; [by eexists| |].
    + intros H. by rewrite (H r eq_refl) in Hclone.
    + intros r' e' [= <-] He. congruence.
  - split_and!; [by eexists|done|]. intros r' e' [= <-] He. congruence.
  - split_and!; [by eexists|done|done].
Qed.

(** X22: the in-page wrapper posts the start message first, whatever
    follows.  It stays unsettled in two cases only: the promise of the
    primitive never settles, or the primitive resolved with a response that
    can be cloned and whose cloned body is never read to its end; it has
    then posted the start message and nothing else.  When it settles it has
    posted exactly two messages, the start and one settlement, and it
    settles as the primitive does, except when [response.clone()] throws:
    the call then rejects with the value thrown although the primitive
    resolved. *)
Theorem pageFetch_settles_as_primitive (toUpperCase : string → string)
    (originalFetch : RequestInfo → option Page.RequestInit → Page.Fetched)
    (rid : string) (startTime endTime : Z) (input : RequestInfo)
    (init : option Page.RequestInit) :
  let out := Page.pageFetchAsync toUpperCase originalFetch rid startTime endTime input init in
  let start := Page.requestStart toUpperCase rid startTime input init in
  (out.1 = None ↔
     originalFetch input init = Page.Pending
     ∨ ∃ r, originalFetch input init = Page.Unending r ∧ Page.clone_throws r = None)
  ∧ (out.1 = None → out.2 = [start])
  ∧ (∀ s, out.1 = Some s → ∃ m, out.2 = [start; m])
  ∧ (∀ s, out.1 = Some s →
       (∀ r, Page.settlement (originalFetch input init) = Some (Page.Resolved r) →
             Page.clone_throws r = None) →
       Page.settlement (originalFetch input init) = Some s)
  ∧ (∀ r e, Page.settlement (originalFetch input init) = Some (Page.Resolved r) →
            Page.clone_throws r = Some e →
            out.1 = Some (Page.Rejected e)).
Proof.
  intros out start. unfold out, start, Page.pageFetchAsync. clear out start.
  assert (Hsettled : ∀ s,
    let run := Page.pageFetch toUpperCase (λ _ _, s) rid startTime endTime input init in
    (∃ m, run.2 = [Page.requestStart toUpperCase rid startTime input init; m])
    ∧ ((∀ r, s = Page.Resolved r → Page.clone_throws r = None) → run.1 = s)
    ∧ (∀ r e, s = Page.Resolved r → Page.clone_throws r = Some e →
         run.1 = Page.Rejected e)).
  { intros s. apply (pageFetch_settlement toUpperCase (λ _ _, s)). }
  destruct (originalFetch input init) as [s|r|] eqn:Horig.
  - destruct (Hsettled s) as (Hmsgs & Hsame & Hclone).
    destruct (Page.pageFetch toUpperCase (λ _ _, s) rid startTime endTime input init)
      as [s' msgs]. cbn [fst snd Page.settlement] in *. split_and!.
    + split; [done|]. intros [|(r & ? & _)]; done.
    + done.
    + intros _ _. exact Hmsgs.
    + intros s0 [= <-] Hok. f_equal. symmetry. apply Hsame.
      intros r ->. by apply Hok.
    + intros r e [= ->] He. f_equal. by apply (Hclone r).
  - destruct (Page.clone_throws r) as [e|] eqn:He.
    + destruct (Hsettled (Page.Resolved r)) as (Hmsgs & _ & Hclone).
      specialize (Hclone r e eq_refl He).
      destruct (Page.pageFetch toUpperCase (λ _ _, Page.Resolved r) rid startTime endTime
                  input init) as [s' msgs]. cbn [fst snd Page.settlement] in *.
      subst s'. split_and!.
      * split; [done|]. intros [|(r' & [= <-] & ?)]; congruence.
      * done.
      * intros _ _. exact Hmsgs.
      * intros s0 [= <-] Hok. specialize (Hok r eq_refl). congruence.
      * intros r' e' [= <-] He'. congruence.
    + cbn [fst snd Page.settlement]. split_and!; try done.
      * split; [|done]. intros _. right. eauto.
      * intros r' e' [= <-] He'. congruence.
  - cbn [fst snd Page.settlement]. split_and!; try done.
    split; [|done]. intros _. by left.
Qed.

Lemma pageFetch_settles_as_primitive_witness :
  Page.pageFetchAsync (λ s, s)
    (λ _ _, Page.Unending (Page.mkResponse (mkResponse 200 "OK" [] None) None))
    "17-abc" 10 12 (InputString "http://api.test/x") None
  = (None, [Page.requestStart (λ s, s) "17-abc" 10 (InputString "http://api.test/x") None])
  ∧ (Page.pageFetchAsync (λ s, s)
       (λ _ _, Page.Unending (Page.mkResponse (mkResponse 200 "OK" [] None)
                                (Some (ErrorObject "body used"))))
       "17-abc" 10 12 (InputString "http://api.test/x") None).1
    = Some (Page.Rejected (ErrorObject "body used")).
Proof.
  split.
  - destruct (pageFetch_settles_as_primitive (λ s, s)
                (λ _ _, Page.Unending (Page.mkResponse (mkResponse 200 "OK" [] None) None))
                "17-abc" 10 12 (InputString "http://api.test/x") None)
      as ([_ Hnone] & Hstart & _).
    assert (Hunsettled :
              (Page.pageFetchAsync (λ s, s)
                 (λ _ _, Page.Unending (Page.mkResponse (mkResponse 200 "OK" [] None) None))
                 "17-abc" 10 12 (InputString "http://api.test/x") None).1 = None).
    { apply Hnone. right. by eexists. }
    specialize (Hstart Hunsettled).
    destruct (Page.pageFetchAsync (λ s, s) _ "17-abc" 10 12 _ None) as [s msgs].
    cbn [fst snd] in *. by rewrite Hunsettled, Hstart.
  - destruct (pageFetch_settles_as_primitive (λ s, s)
                (λ _ _, Page.Unending (Page.mkResponse (mkResponse 200 "OK" [] None)
                                         (Some (ErrorObject "body used"))))
                "17-abc" 10 12 (InputString "http://api.test/x") None)
      as (_ & _ & _ & _ & H).
    apply (H (Page.mkResponse (mkResponse 200 "OK" [] None) (Some (ErrorObject "body used")))
             (ErrorObject "body used")); reflexivity.
Defined.

(** * From a server call to the page *)

Lemma netviewFetch_intercepted
    (originalFetch : RequestInfo → option RequestInit → Settled) (cookies : Cookies)
    (rid : string) (startTime endTime now : Z) (input : RequestInfo)
    (init : option RequestInit) (store : SessionStore) (sid : string) :
  getSessionId cookies = Some sid →
  sid ≠ "" →
  includes (url_of input) "/__netview/" = false →
  netviewFetch originalFetch cookies rid startTime endTime now input init store
  = match originalFetch input init with
    | Resolved response =>
        let log := responseLog rid sid startTime endTime input init response in
        (Resolved response, (addLog now sid log store).1, (addLog now sid log store).2)
    | Rejected e =>
        let log := rejectionLog rid sid startTime endTime input init e in
        (Rejected e, (addLog now sid log store).1, (addLog now sid log store).2)
    end.
Proof.
  intros Hsid Hne Hurl. unfold netviewFetch.
  rewrite Hsid, bool_decide_eq_false_2, Hurl by done.
  destruct (originalFetch input init) as [response|e]; cbn zeta.
  - fold (responseLog rid sid startTime endTime input init response).
    by destruct (addLog now sid _ store).
  - fold (rejectionLog rid sid startTime endTime input init e).
    by destruct (addLog now sid _ store).
Qed.

Lemma filter_eq_absent (x : nat) (l : list nat) :
  x ∉ l → filter (λ y, y = x) l = [].
Proof.
  induction l as [|z l IH]; intros Hx; [done|].
  apply not_elem_of_cons in Hx as [Hxz Hxl].
  rewrite filter_cons_False by congruence. by apply IH.
Qed.

Lemma filter_eq_NoDup (x : nat) (l : list nat) :
  NoDup l → x ∈ l → filter (λ y, y = x) l = [x].
Proof.
  induction 1 as [|y l Hy Hnd IH]; intros Hin; [by apply elem_of_nil in Hin|].
  destruct (decide (y = x)) as [->|Hne].
  - rewrite filter_cons_True by done. f_equal. by apply filter_eq_absent.
  - rewrite filter_cons_False by done. apply IH.
    apply elem_of_cons in Hin as [Heq|Hin]; [congruence|done].
Qed.

Lemma enqueued_notify send_id log subs :
  NoDup subs → send_id ∈ subs → enqueued send_id (notify log subs) = [send log].
Proof.
  intros Hnd Hin. unfold enqueued, notify.
  assert (H : filter (λ c : nat * ServerFetchLog, c.1 = send_id) (map (λ c, (c, log)) subs)
              = map (λ c, (c, log)) (filter (λ y, y = send_id) subs)).
  { clear. induction subs as [|c subs IH]; [done|]. cbn [map].
    destruct (decide (c = send_id)).
    - rewrite !filter_cons_True by done. cbn [map]. by rewrite IH.
    - rewrite !filter_cons_False by done. exact IH. }
  rewrite H, filter_eq_NoDup by done. reflexivity.
Qed.

Lemma NoDup_listeners_reachable options ops sid :
  NoDup (subscribers_of sid (run ops (new_SessionStore options)).1).
Proof.
  assert (Hall : all_buffers (λ b, NoDup (subscribers b))
                   (run ops (new_SessionStore options)).1).
  { apply (run_all_buffers _ (maxLogsPerSession (new_SessionStore options))).
    - intros now0. apply NoDup_nil_2.
    - intros now0 b Hb. exact Hb.
    - intros log0 b Hb. exact Hb.
    - intros cb b. apply NoDup_set_add.
    - intros cb b. apply NoDup_filter.
    - done.
    - apply all_buffers_new. }
  unfold subscribers_of. destruct (session sid _) as [b|] eqn:Hs; [|apply NoDup_nil_2].
  apply (all_buffers_session _ _ _ _ Hall Hs).
Qed.

Lemma netviewFetchAsync_intercepted
    (originalFetch : RequestInfo → option RequestInit → Fetched) (cookies : Cookies)
    (rid : string) (startTime endTime now : Z) (input : RequestInfo)
    (init : option RequestInit) (store : SessionStore) (sid : string) :
  getSessionId cookies = Some sid →
  sid ≠ "" →
  includes (url_of input) "/__netview/" = false →
  netviewFetchAsync originalFetch cookies rid startTime endTime now input init store
  = match originalFetch input init with
    | Ends (Resolved response) =>
        let log := responseLog rid sid startTime endTime input init response in
        (Some (Resolved response), (addLog now sid log store).1, (addLog now sid log store).2)
    | Ends (Rejected e) =>
        let log := rejectionLog rid sid startTime endTime input init e in
        (Some (Rejected e), (addLog now sid log store).1, (addLog now sid log store).2)
    | Unending _ | Pending => (None, store, [])
    end.
Proof.
  intros Hsid Hne Hurl. unfold netviewFetchAsync, intercepted.
  rewrite Hsid, bool_decide_eq_false_2, Hurl by done. cbn [negb andb].
  destruct (originalFetch input init) as [s|response|]; [|done..].
  rewrite (netviewFetch_intercepted _ _ _ _ _ _ _ _ _ sid) by done.
  by destruct s.
Qed.

(** A listener on a buffer object stays on it, once, through any
    operations in which its handle is not called; it is a listener of the
    session as long as the session is held in that object. *)
Lemma listener_stays sid r cb ops st b :
  heap st !! r = Some b →
  NoDup (subscribers b) →
  cb ∈ subscribers b →
  (r, cb) ∉ unsubscribed ops →
  sessions (run ops st).1 !! sid = Some r →
  NoDup (subscribers_of sid (run ops st).1) ∧ cb ∈ subscribers_of sid (run ops st).1.
Proof.
  intros Hb Hnd Hin Hh Hsid.
  destruct (run_subscribers (λ l, NoDup l ∧ cb ∈ l) [cb] r ops) with (st := st) (b := b)
    as (b2 & Hb2 & HQ); try done.
  - intros c l [H1 H2]. split; [by apply NoDup_set_add|by apply elem_of_set_add].
  - intros c l Hc [H1 H2]. split; [by apply NoDup_filter|].
    apply elem_of_set_delete; [|done]. intros ->. apply Hc. by left.
  - intros c Hc. apply list_elem_of_singleton in Hc. by rewrite Hc.
  - unfold subscribers_of, session. rewrite Hsid. cbn. by rewrite Hb2.
Qed.

(** X23: from a server call to the page.  Let a page be connected to a
    store reached from a new one, and let any operations follow in which
    the connection is not cancelled and after which the session is still
    held in the buffer the connection registered on (no sweep has deleted
    it in between).  Let the server then make a call for the session of the
    page that is intercepted.  If the call resolves and the body of the
    response is read to its end, the listener of the connection enqueues
    one message, and the page, handling it, appends one request: id
    [server-] followed by the id drawn for the call, the URL and the status
    of the call, origin [server], state [completed].  If the call rejects
    with a non-empty message, one message is enqueued as well and the page
    discards it: its collection stays as it was.  While the call or the
    reading of the body is pending, nothing is enqueued. *)
Theorem server_call_reaches_page (options : NetViewOptions) (ops : list Op) (sid : string)
    (send_id : nat) (now : Z) (stream : EventStream) (store' : SessionStore)
    (h : nat * nat) (ops2 : list Op)
    (originalFetch : RequestInfo → option RequestInit → Fetched) (cookies : Cookies)
    (rid : string) (startTime endTime t : Z) (input : RequestInfo)
    (init : option RequestInit) (requests : list Client.NetworkRequest) :
  GET (Some sid) send_id now (Some (run ops (new_SessionStore options)).1)
    = Returns (StreamResponse stream, Some store') →
  unsubscribe_handle stream = Some h →
  h ∉ unsubscribed ops2 →
  sessions (run ops2 store').1 !! sid = Some h.1 →
  getSessionId cookies = Some sid →
  includes (url_of input) "/__netview/" = false →
  let calls :=
    (netviewFetchAsync originalFetch cookies rid startTime endTime t input init
       (run ops2 store').1).2 in
  let page := deliver (Client.messages (enqueued send_id calls)) requests in
  match originalFetch input init with
  | Ends (Resolved response) =>
      length (enqueued send_id calls) = 1
      ∧ ∃ r, page = requests ++ [r]
             ∧ Client.id r = "server-" +:+ rid
             ∧ Client.url r = Client.JStr (url_of input)
             ∧ Client.status r = Client.JNum (resp_status response)
             ∧ Client.source r = Client.SourceServer
             ∧ Client.state r = Client.StateCompleted
  | Ends (Rejected e) =>
      length (enqueued send_id calls) = 1
      ∧ (error_text e ≠ "" → page = requests)
  | Unending _ | Pending => calls = [] ∧ page = requests
  end.
Proof.
  intros HGET Hhandle Hh Hheld Hsid Hurl calls page. unfold page, calls. clear page calls.
  unfold GET in HGET. case_bool_decide as Hne; [done|]. cbn [getStore] in HGET.
  set (store := (run ops (new_SessionStore options)).1) in *.
  assert (Hwf : wf store) by apply wf_run, wf_new.
  destruct (subscribe_spec now sid send_id store Hwf) as (Hwf' & Href & Hcb & Hs & _).
  destruct (subscribe now sid send_id store) as [[store1 h1] calls1].
  cbn [fst snd] in *. injection HGET as <- <-.
  cbn [unsubscribe_handle] in Hhandle. injection Hhandle as ->.
  set (st2 := (run ops2 store1).1) in *.
  assert (Hwf2 : wf st2) by by apply wf_run.
  assert (Hb : heap store1 !! h.1
               = Some {| logs := getBufferedLogs sid store; lastAccess := now;
                         subscribers := set_add send_id (subscribers_of sid store) |}).
  { unfold session in Hs. by rewrite Href in Hs. }
  destruct (listener_stays sid h.1 send_id ops2 store1 _ Hb) as [Hnd Hin]; try done.
  { apply NoDup_set_add, NoDup_listeners_reachable. }
  { apply elem_of_set_add_new. }
  { by rewrite <- Hcb, <- surjective_pairing. }
  assert (Henq : ∀ log, enqueued send_id (addLog t sid log st2).2 = [send log]).
  { intros log. destruct (addLog_spec t sid log st2 Hwf2) as (_ & _ & -> & _).
    by apply enqueued_notify. }
  rewrite (netviewFetchAsync_intercepted _ _ _ _ _ _ _ _ _ sid) by done.
  destruct (originalFetch input init) as [[response|e]|response|]; cbn zeta; cbn [snd];
    [| |done..]; rewrite Henq, messages_send, deliver_cons; (split; [done|]).
  - rewrite onmessage_unfailed by done. eexists. split; [reflexivity|]. done.
  - intros Hmsg. rewrite onmessage_failed; [done|].
    unfold unfailed. cbn [error rejectionLog]. by rewrite bool_decide_eq_false_2.
Qed.

Lemma server_call_reaches_page_witness :
  Client.id <$>
    deliver
      (Client.messages
         (enqueued 7
            (netviewFetchAsync
               (λ _ _, Ends (Resolved (mkResponse 200 "OK" [] (Some ""))))
               cookiesAbc "id1" 10 12 12 (InputString "http://api.test/x") None
               (run [OpAddLog 8 "abc" logA; OpCleanup 9000]
                  (subscribe 5 "abc" 7 store2).1.1).1).2)) []
  = ["server-id1"].
Proof.
  pose proof (server_call_reaches_page (mkOptions (Some 2%Z) (Some 60%Z) None) [] "abc" 7 5
              {| frames := [Comment "connected"]; closed := false;
                 unsubscribe_handle := Some (subscribe 5 "abc" 7 store2).1.2 |}
              (subscribe 5 "abc" 7 store2).1.1
              (subscribe 5 "abc" 7 store2).1.2
              [OpAddLog 8 "abc" logA; OpCleanup 9000]
              (λ _ _, Ends (Resolved (mkResponse 200 "OK" [] (Some ""))))
              cookiesAbc "id1" 10 12 12 (InputString "http://api.test/x") None [])
    as H.
  destruct H as [_ (r & Hpage & Hid & _)].
  - vm_compute. reflexivity.
  - reflexivity.
  - cbn. apply not_elem_of_nil.
  - vm_compute. reflexivity.
  - vm_compute. reflexivity.
  - vm_compute. reflexivity.
  - rewrite Hpage. cbn. by rewrite Hid.
Defined.

(** * Live delivery and stale handles *)

Lemma enqueued_app send_id c1 c2 :
  enqueued send_id (c1 ++ c2) = enqueued send_id c1 ++ enqueued send_id c2.
Proof. unfold enqueued. by rewrite filter_app, map_app. Qed.

Lemma addLog_subscribers now sid log st :
  wf st → subscribers_of sid (addLog now sid log st).1 = subscribers_of sid st.
Proof.
  intros Hwf. destruct (addLog_spec now sid log st Hwf) as (_ & Hs & _).
  unfold subscribers_of at 1. by rewrite Hs.
Qed.

(** ** The listener of a connection between sweeps *)

Lemma enqueued_notify_absent send_id log subs :
  send_id ∉ subs → enqueued send_id (notify log subs) = [].
Proof.
  intros Hin. unfold enqueued, notify.
  induction subs as [|c subs IH]; [done|].
  apply not_elem_of_cons in Hin as [Hne Hin]. cbn [map].
  rewrite filter_cons_False by (cbn; congruence). by apply IH.
Qed.

Lemma enqueued_replay_other send_id cb l :
  cb ≠ send_id → enqueued send_id (replay cb l) = [].
Proof.
  intros Hne. unfold enqueued, replay.
  induction l as [|log l IH]; [done|]. cbn [map].
  rewrite filter_cons_False by (cbn; congruence). exact IH.
Qed.

Lemma not_elem_of_set_add c x l : x ≠ c → x ∉ l → x ∉ set_add c l.
Proof.
  intros Hne Hx. unfold set_add. case_decide; [done|].
  rewrite elem_of_app, list_elem_of_singleton. tauto.
Qed.

Lemma not_elem_of_set_delete c x l : x ∉ l → x ∉ set_delete c l.
Proof. intros Hx Hin. apply Hx. unfold set_delete in Hin. by apply list_elem_of_filter in Hin as [_ ?]. Qed.

(** [addLog] changes the listener set of no session. *)
Lemma addLog_subscribers_any now sid log st s :
  wf st → inj_sessions st →
  subscribers_of s (addLog now sid log st).1 = subscribers_of s st.
Proof.
  intros Hwf Hinj. destruct (decide (sid = s)) as [->|Hne].
  - by apply addLog_subscribers.
  - unfold subscribers_of. by rewrite addLog_other.
Qed.

Lemma subscribe_subscribers_any now sid cb st s :
  wf st → inj_sessions st →
  subscribers_of s (subscribe now sid cb st).1.1
  = if decide (s = sid) then set_add cb (subscribers_of sid st) else subscribers_of s st.
Proof.
  intros Hwf Hinj. case_decide as Hs.
  - subst s. destruct (subscribe_spec now sid cb st Hwf) as (_ & _ & _ & Hsess & _).
    unfold subscribers_of at 1. by rewrite Hsess.
  - unfold subscribers_of. rewrite subscribe_other; [done..|]. by intros ->.
Qed.

Lemma unsubscribe_subscribers_any h st s :
  subscribers_of s (unsubscribe h st)
  = if decide (sessions st !! s = Some h.1)
    then set_delete h.2 (subscribers_of s st)
    else subscribers_of s st.
Proof.
  unfold subscribers_of, session, unsubscribe. cbn [sessions heap set_heap].
  destruct (sessions st !! s) as [r|] eqn:Hr; cbn.
  - destruct (decide (h.1 = r)) as [Heq|Hne].
    + rewrite decide_True by by rewrite Heq.
      rewrite Heq, lookup_alter_eq. by destruct (heap st !! r).
    + rewrite decide_False by congruence. by rewrite lookup_alter_ne.
  - by rewrite decide_False.
Qed.

Lemma cleanup_subscribers_any now st s :
  subscribers_of s (cleanup now st) = subscribers_of s st
  ∨ subscribers_of s (cleanup now st) = [].
Proof.
  unfold subscribers_of. rewrite cleanup_session.
  destruct (session s st) as [b|]; [|by left].
  destruct (expired now (ttlMs st) b); [by right|by left].
Qed.

(** An operation that does not remove a session leaves it in the buffer
    object it has. *)
Lemma step_keeps_session sid r op st :
  sessions st !! sid = Some r →
  (is_Some (sessions st !! sid) → is_Some (sessions (step op st).1 !! sid)) →
  sessions (step op st).1 !! sid = Some r.
Proof.
  intros Hr Hkept.
  assert (Hother : (∀ now, op ≠ OpCleanup now) → sessions (step op st).1 !! sid = Some r).
  { intros Hno. pose proof (run_keeps_session_without_sweep sid r [op] st Hr) as H.
    rewrite run_cons in H. cbn [run fst] in H. apply H.
    intros now Hin. apply list_elem_of_singleton in Hin. by apply (Hno now). }
  destruct op as [now s log|now s c|h|now s|now]; try by apply Hother.
  cbn [step fst] in *. specialize (Hkept (mk_is_Some _ _ Hr)).
  rewrite cleanup_lookup, Hr in *.
  destruct (heap st !! r) as [b|]; [|done].
  destruct (expired now (ttlMs st) b); [by destruct Hkept|done].
Qed.

Lemma cleanup_session_kept now sid st :
  is_Some (sessions (cleanup now st) !! sid) →
  session sid (cleanup now st) = session sid st.
Proof.
  intros Hkept. rewrite cleanup_session.
  rewrite cleanup_lookup in Hkept. unfold session.
  destruct (sessions st !! sid) as [r|]; [|done]. cbn.
  destruct (heap st !! r) as [b|]; [|done].
  destruct (expired now (ttlMs st) b); [by destruct Hkept|done].
Qed.

(** What one operation does to a live connection: unless it cancels the
    connection, registers its listener again or sweeps its session away,
    the connection stays live, and its listener is called exactly for a
    record added to its session. *)
Lemma step_connected sid r cb op st :
  connected sid r cb st →
  op ≠ OpUnsubscribe (r, cb) →
  (∀ t s, op ≠ OpSubscribe t s cb) →
  (is_Some (sessions st !! sid) → is_Some (sessions (step op st).1 !! sid)) →
  connected sid r cb (step op st).1
  ∧ enqueued cb (step op st).2 = map send (added sid [op]).
Proof.
  intros (Hwf & Hinj & Hr & Hnd & Hin & Hothers) Hcancel Hagain Hkept.
  pose proof (wf_step op st Hwf) as Hwf1.
  pose proof (inj_step op st Hwf Hinj) as Hinj1.
  pose proof (step_keeps_session sid r op st Hr Hkept) as Hr1.
  unfold connected. unfold added. cbn [omap list_omap].
  destruct op as [now s log|now s c|h|now s|now]; cbn [step fst snd] in *.
  - split.
    + split_and!; try done; try (rewrite addLog_subscribers_any by done; done).
      intros s' Hs'. rewrite addLog_subscribers_any by done. by apply Hothers.
    + destruct (addLog_spec now s log st Hwf) as (_ & _ & -> & _).
      case_bool_decide as Hs.
      * subst s. by apply enqueued_notify.
      * by apply enqueued_notify_absent, Hothers.
  - assert (Hc : c ≠ cb) by (intros ->; by apply (Hagain now s)).
    pose proof (subscribe_subscribers_any now s c st) as Hsubs.
    destruct (subscribe_spec now s c st Hwf) as (_ & _ & _ & _ & Hcalls & _).
    destruct (subscribe now s c st) as [[st1 h1] calls1]. cbn [fst snd] in *.
    split.
    + split_and!; try done.
      * rewrite Hsubs by done. case_decide; [subst s; by apply NoDup_set_add|done].
      * rewrite Hsubs by done. case_decide; [subst s; by apply elem_of_set_add|done].
      * intros s' Hs'. rewrite Hsubs by done.
        case_decide; [subst s'; by apply not_elem_of_set_add, Hothers|by apply Hothers].
    + rewrite Hcalls. by apply enqueued_replay_other.
  - split; [|done]. split_and!; try done.
    + rewrite unsubscribe_subscribers_any. case_decide; [by apply NoDup_filter|done].
    + rewrite unsubscribe_subscribers_any. case_decide as Hh; [|done].
      apply elem_of_set_delete; [|done]. intros Heq. apply Hcancel. f_equal.
      rewrite Hr in Hh. injection Hh as ->. rewrite Heq. by destruct h.
    + intros s' Hs'. rewrite unsubscribe_subscribers_any.
      case_decide; [by apply not_elem_of_set_delete, Hothers|by apply Hothers].
  - done.
  - split; [|done].
    assert (Hsame : session sid (cleanup now st) = session sid st).
    { apply cleanup_session_kept. by rewrite Hr1. }
    split_and!; try done.
    + unfold subscribers_of. by rewrite Hsame.
    + unfold subscribers_of. by rewrite Hsame.
    + intros s' Hs'. destruct (cleanup_subscribers_any now st s') as [->| ->];
        [by apply Hothers|apply not_elem_of_nil].
Qed.

Lemma run_connected sid r cb ops : ∀ st,
  connected sid r cb st →
  (r, cb) ∉ unsubscribed ops →
  (∀ t s, OpSubscribe t s cb ∉ ops) →
  never_dropped sid ops st →
  connected sid r cb (run ops st).1
  ∧ enqueued cb (run ops st).2 = map send (added sid ops).
Proof.
  induction ops as [|op ops IH]; intros st Hconn Hcancel Hagain Hnd; [done|].
  destruct Hnd as [Hkept Hrest].
  destruct (step_connected sid r cb op st Hconn) as [Hconn1 Henq]; [| |done|].
  - intros ->. apply Hcancel. unfold unsubscribed. cbn [omap list_omap]. by left.
  - intros t s ->. apply (Hagain t s). by left.
  - destruct (IH (step op st).1 Hconn1) as [Hconn2 Henq2]; [| |done|].
    + intros Hin. apply Hcancel. unfold unsubscribed. cbn [omap list_omap].
      destruct op; try done. by right.
    + intros t s Hin. apply (Hagain t s). by right.
    + rewrite run_cons, added_cons, map_app. cbn [fst snd].
      by rewrite enqueued_app, Henq, Henq2.
Qed.

(** X24: between sweeps the live stream has no gap and keeps the order.
    Let a connection be made, with a listener that is registered nowhere
    yet, to a store reached from a new one, and let any operations follow
    in which the connection is not cancelled, its listener is not
    registered again, and no sweep deletes its session.  Then the listener
    of the connection enqueues one message for each record added to the
    session, in the order of the [addLog] calls, and nothing else. *)
Theorem connection_streams_live_records (options : NetViewOptions) (ops : list Op)
    (sid : string) (send_id : nat) (now : Z) (stream : EventStream)
    (store' : SessionStore) (h : nat * nat) (ops2 : list Op) :
  GET (Some sid) send_id now (Some (run ops (new_SessionStore options)).1)
    = Returns (StreamResponse stream, Some store') →
  (∀ s, send_id ∉ subscribers_of s (run ops (new_SessionStore options)).1) →
  unsubscribe_handle stream = Some h →
  h ∉ unsubscribed ops2 →
  (∀ t s, OpSubscribe t s send_id ∉ ops2) →
  never_dropped sid ops2 store' →
  enqueued send_id (run ops2 store').2 = map send (added sid ops2).
Proof.
  intros HGET Hnew Hhandle Hcancel Hagain Hkept.
  unfold GET in HGET. case_bool_decide as Hne; [done|]. cbn [getStore] in HGET.
  set (store := (run ops (new_SessionStore options)).1) in *.
  assert (Hwf : wf store) by apply wf_run, wf_new.
  assert (Hinj : inj_sessions store) by (apply inj_run; [apply wf_new|apply inj_new]).
  pose proof (subscribe_subscribers_any now sid send_id store) as Hsubs.
  pose proof (inj_step (OpSubscribe now sid send_id) store Hwf Hinj) as Hinj'.
  destruct (subscribe_spec now sid send_id store Hwf) as (Hwf' & Href & Hcb & _).
  cbn [step] in Hinj'.
  destruct (subscribe now sid send_id store) as [[store1 h1] calls1].
  cbn [fst snd] in *. injection HGET as <- <-.
  cbn [unsubscribe_handle] in Hhandle. injection Hhandle as ->.
  apply (run_connected sid h.1 send_id ops2 store1); [|by rewrite <- Hcb, <- surjective_pairing|done..].
  split_and!; try done.
  - rewrite Hsubs, decide_True by done. apply NoDup_set_add, NoDup_listeners_reachable.
  - rewrite Hsubs, decide_True by done. apply elem_of_set_add_new.
  - intros s Hs. rewrite Hsubs, decide_False by done. apply Hnew.
Qed.

Lemma connection_streams_live_records_witness :
  enqueued 7
    (run [OpAddLog 10 "s1" logA; OpSubscribe 12 "s1" 8; OpAddLog 20 "s2" logB;
          OpCleanup 30000; OpAddLog 30010 "s1" logC]
       (subscribe 5 "s1" 7 store2).1.1).2
  = [send logA; send logC].
Proof.
  apply (connection_streams_live_records (mkOptions (Some 2%Z) (Some 60%Z) None) [] "s1" 7 5
           {| frames := [Comment "connected"]; closed := false;
              unsubscribe_handle := Some (subscribe 5 "s1" 7 store2).1.2 |}
           (subscribe 5 "s1" 7 store2).1.1
           (subscribe 5 "s1" 7 store2).1.2
           [OpAddLog 10 "s1" logA; OpSubscribe 12 "s1" 8; OpAddLog 20 "s2" logB;
            OpCleanup 30000; OpAddLog 30010 "s1" logC]).
  - vm_compute. reflexivity.
  - intros s. cbn. apply not_elem_of_nil.
  - reflexivity.
  - cbn. apply not_elem_of_nil.
  - intros t s Hin. repeat (apply elem_of_cons in Hin as [Hin|Hin]; [discriminate|]).
    by apply elem_of_nil in Hin.
  - cbn [never_dropped]. repeat split; intros _; vm_compute; eauto.
Defined.

(** X25: a handle acts on the buffer it was made for.  When the store
    no longer holds a session (the sweep deleted it) and the session is
    created again by a new [subscribe], calling a handle of any buffer
    object made before leaves the new buffer and its listeners as they
    are: the listener registered anew keeps receiving. *)
Theorem stale_handle_spares_new_buffer (st : SessionStore) (t : Z) (sid : string)
    (cb : nat) (h : nat * nat) (now : Z) (log : ServerFetchLog) :
  wf st →
  sessions st !! sid = None →
  is_Some (heap st !! h.1) →
  let st1 := (subscribe t sid cb st).1.1 in
  session sid (unsubscribe h st1) = session sid st1
  ∧ (cb, log) ∈ (addLog now sid log (unsubscribe h st1)).2.
Proof.
  intros Hwf Hnone Hold st1.
  assert (Hfresh : h.1 ≠ fresh (dom (heap st))).
  { intros Heq. apply (is_fresh (dom (heap st))). rewrite <- Heq. by apply elem_of_dom. }
  destruct (subscribe_spec t sid cb st Hwf) as (Hwf1 & _ & _ & Hs1 & _).
  fold st1 in Hwf1, Hs1.
  assert (Href : sessions st1 !! sid = Some (fresh (dom (heap st)))).
  { unfold st1, subscribe, getOrCreateSession. rewrite Hnone. cbn.
    rewrite lookup_insert_eq. cbn. by rewrite lookup_insert_eq. }
  assert (Hsame : session sid (unsubscribe h st1) = session sid st1).
  { unfold session, unsubscribe. cbn [sessions set_heap heap]. rewrite Href. cbn.
    by rewrite lookup_alter_ne. }
  split; [done|].
  destruct (addLog_spec now sid log (unsubscribe h st1) (wf_unsubscribe h st1 Hwf1))
    as (_ & _ & -> & _).
  unfold subscribers_of. rewrite Hsame, Hs1. cbn [subscribers].
  apply (list_elem_of_fmap_2 (λ c, (c, log))), elem_of_set_add_new.
Qed.

Lemma stale_handle_spares_new_buffer_witness :
  (addLog 60003 "s1" logA
     (unsubscribe (subscribe 0 "s1" 7 store2).1.2
        (subscribe 60002 "s1" 7 (cleanup 60001 (subscribe 0 "s1" 7 store2).1.1)).1.1)).2
  = [(7, logA)].
Proof.
  destruct (stale_handle_spares_new_buffer
              (cleanup 60001 (subscribe 0 "s1" 7 store2).1.1) 60002 "s1" 7
              (subscribe 0 "s1" 7 store2).1.2 60003 logA) as [_ H].
  - apply wf_cleanup, (subscribe_spec 0 "s1" 7 store2), wf_new.
  - vm_compute. reflexivity.
  - vm_compute. eauto.
  - vm_compute. reflexivity.
Defined.
